(** * ragApp: the chunking and retrieval pipeline

    A shallow embedding of [src/utils/text_processing.py] (the normalizer,
    the chunker and the keyword extractor), [src/services/embedding_service.py]
    and [src/services/retrieval_service.py] (ingestion and retrieval over the
    vector index), followed by the properties of the pipeline. *)

From Stdlib Require Import String Ascii.
From Stdlib Require Import List NArith ZArith Arith Bool Lia.
From Stdlib Require Import Sorted Permutation QArith.
Import ListNotations.

Set Implicit Arguments.

(** ** Python strings

    A Python [str] is a sequence of Unicode code points; [len] counts code
    points.  A code point is a natural number. *)

Definition char := N.
Definition str := list char.

Definition ord (a : ascii) : char := N_of_ascii a.

(** [py "abc"] is the [str] with the code points of an ASCII literal. *)
Fixpoint py (s : string) : str :=
  match s with
  | EmptyString => []
  | String a s' => ord a :: py s'
  end.

Definition LF : char := 10%N.
Definition SP : char := 32%N.
Definition UNDERSCORE : char := 95%N.

Definition in_range (lo hi c : N) : bool := (N.leb lo c && N.leb c hi)%bool.

Fixpoint str_eqb (a b : str) : bool :=
  match a, b with
  | [], [] => true
  | x :: a', y :: b' => (N.eqb x y && str_eqb a' b')%bool
  | _, _ => false
  end.

Definition str_eq_dec : forall a b : str, {a = b} + {a <> b} :=
  list_eq_dec N.eq_dec.

(** [Py_UNICODE_ISSPACE]: the code points that [\s] matches in a [str]
    pattern and that [str.strip()] removes. *)
Definition isspace (c : char) : bool :=
  (in_range 9 13 c || in_range 28 32 c || N.eqb c 133 || N.eqb c 160
   || N.eqb c 5760 || in_range 8192 8202 c || N.eqb c 8232 || N.eqb c 8233
   || N.eqb c 8239 || N.eqb c 8287 || N.eqb c 12288)%bool.

Definition is_ascii (c : char) : bool := N.ltb c 128.

Definition ascii_upper (c : char) : bool := in_range 65 90 c.
Definition ascii_lower (c : char) : bool := in_range 97 122 c.
Definition ascii_digit (c : char) : bool := in_range 48 57 c.

(** The character class [[a-zA-Z]]. *)
Definition ascii_letter (c : char) : bool := (ascii_lower c || ascii_upper c)%bool.

Definition ascii_alnum (c : char) : bool := (ascii_digit c || ascii_letter c)%bool.

Definition ascii_tolower (c : char) : char :=
  if ascii_upper c then (c + 32)%N else c.

(** [s.lstrip()], [s.rstrip()] and [s.strip()] without argument. *)
Fixpoint lstrip (s : str) : str :=
  match s with
  | [] => []
  | c :: s' => if isspace c then lstrip s' else s
  end.

Definition rstrip (s : str) : str := rev (lstrip (rev s)).

Definition strip (s : str) : str := rstrip (lstrip s).

(** Truth value of a [str]: non-empty. *)
Definition truthy (s : str) : bool :=
  match s with [] => false | _ => true end.

(** [re.sub(r'[cls]+', repl, s)] for a character class [cls]: every maximal
    run of characters of the class is replaced by [repl].  [in_run] tells
    that the previous character belonged to the run being replaced. *)
Fixpoint re_sub_runs (cls : char -> bool) (repl : str) (in_run : bool) (s : str) : str :=
  match s with
  | [] => []
  | c :: s' =>
      if cls c then
        if in_run then re_sub_runs cls repl true s'
        else repl ++ re_sub_runs cls repl true s'
      else c :: re_sub_runs cls repl false s'
  end.

Definition re_sub (cls : char -> bool) (repl : str) (s : str) : str :=
  re_sub_runs cls repl false s.

(** The punctuation written out in the character class of [clean_text]:
    . , ! ? ; : - ( ) [ ] { } and the two quotes. *)
Definition kept_punctuation : list char :=
  [46; 44; 33; 63; 59; 58; 45; 40; 41; 91; 93; 123; 125; 34; 39]%N.

Definition is_kept_punctuation (c : char) : bool :=
  existsb (N.eqb c) kept_punctuation.

(** Results of calls that may raise: [Raise msg] stands for a Python
    exception with message [msg]. *)
Inductive result (A : Type) : Type :=
| Ok (a : A)
| Raise (msg : string).

Arguments Ok {A} a.
Arguments Raise {A} msg.

(** [len] of a [str], as a Python integer. *)
Definition len (s : str) : Z := Z.of_nat (length s).

(** ** The text splitter instantiated by [chunk_text]

    [RecursiveCharacterTextSplitter] is a class of the package
    langchain_text_splitters, whose code is not part of the repository.
    [chunk_text] builds it with [chunk_size], [chunk_overlap],
    [length_function=len] and the four separators, and calls its
    [split_text].  The module below models that method after section 4.2 of
    the specification (a priority list of separators; the highest-priority
    separator present in the text is used; pieces still too long are split
    again with the separators of lower priority; character-level splitting
    is the last resort; neighbouring chunks share up to [chunk_overlap]
    characters), in the way the package carries it out. *)

Module RecursiveCharacterTextSplitter.

(** [s.startswith(p)]. *)
Fixpoint is_prefix (p s : str) : bool :=
  match p, s with
  | [], _ => true
  | x :: p', y :: s' => (N.eqb x y && is_prefix p' s')%bool
  | _ :: _, [] => false
  end.

(** [re.search(re.escape(sep), text)] is not [None]. *)
Fixpoint contains (sep text : str) : bool :=
  match text with
  | [] => is_prefix sep []
  | _ :: text' => (is_prefix sep text || contains sep text')%bool
  end.

Definition push_front (c : char) (pieces : list str) : list str :=
  match pieces with
  | [] => [[c]]
  | p :: ps => (c :: p) :: ps
  end.

(** [re.split] on the captured literal [sep] with every separator glued to
    the front of the piece that follows it ([keep_separator=True]):
    the pieces are [t0], [sep + t1], [sep + t2], ...  [skip] counts the
    characters of a separator occurrence still to be passed. *)
Fixpoint split_keep (sep : str) (skip : nat) (text : str) : list str :=
  match text with
  | [] => [[]]
  | c :: text' =>
      match skip with
      | S k => push_front c (split_keep sep k text')
      | O =>
          if is_prefix sep text
          then [] :: push_front c (split_keep sep (length sep - 1) text')
          else push_front c (split_keep sep 0 text')
      end
  end.

(** Modelled from the spec: the splitter's [_split_text_with_regex] is
    missing from the sources.  The text is cut at the occurrences of the
    separator, each occurrence staying at the front of the piece after it;
    the empty separator cuts the text into its characters; empty pieces are
    left out. *)
Definition _split_text_with_regex (text separator : str) : list str :=
  let splits :=
    match separator with
    | [] => map (fun c => [c]) text
    | _ :: _ => split_keep separator 0 text
    end in
  filter truthy splits.

(** [separator.join(docs)]. *)
Fixpoint join (separator : str) (docs : list str) : str :=
  match docs with
  | [] => []
  | d :: ds =>
      match ds with
      | [] => d
      | _ :: _ => d ++ separator ++ join separator ds
      end
  end.

(** Modelled from the spec: the splitter's [_join_docs] is missing from
    the sources.  The pieces are joined and stripped; a blank result is no
    chunk. *)
Definition _join_docs (docs : list str) (separator : str) : option str :=
  match strip (join separator docs) with
  | [] => None
  | text => Some text
  end.

Definition append_doc (docs : list str) (doc : option str) : list str :=
  match doc with
  | Some d => docs ++ [d]
  | None => docs
  end.

Record merge_state : Type := MergeState {
  docs : list str;
  current_doc : list str;
  total : Z
}.

Section Merge.

Variables chunk_size chunk_overlap : Z.
Variable separator : str.

Definition separator_len : Z := len separator.

(** [separator_len if cond else 0]. *)
Definition sep_if (cond : bool) : Z := if cond then separator_len else 0%Z.

Definition exceeds (total _len : Z) (current_doc : list str) : bool :=
  (total + _len + sep_if (0 <? length current_doc)%nat >? chunk_size)%Z.

(** Modelled from the spec: the [while] loop of the splitter's
    [_merge_splits] is missing from the sources.  After a chunk has been
    emitted, pieces are dropped from the front of [current_doc] until what
    is left is within [chunk_overlap] and has room for the next piece; what
    is left opens the next chunk (the overlap).  With an empty [current_doc]
    the loop condition is false whenever [total] is the length of the joined
    pieces and [chunk_overlap >= 0] (see [pop_front_total]). *)
Fixpoint pop_front (_len : Z) (current_doc : list str) (total : Z) : list str * Z :=
  match current_doc with
  | [] => ([], total)
  | d0 :: rest =>
      if ((total >? chunk_overlap)%Z
          || (exceeds total _len current_doc && (total >? 0)%Z))%bool
      then pop_front _len rest
             (total - (len d0 + sep_if (1 <? length current_doc)%nat))%Z
      else (current_doc, total)
  end.

(** Modelled from the spec: one iteration of the [for d in splits] loop of
    the splitter's [_merge_splits], missing from the sources.  When the next
    piece does not fit, the pieces gathered so far are emitted as a chunk
    and the front is dropped down to the overlap; then the piece is
    added. *)
Definition merge_step (st : merge_state) (d : str) : merge_state :=
  let _len := len d in
  let st1 :=
    if exceeds (total st) _len (current_doc st) then
      match current_doc st with
      | [] => st
      | _ :: _ =>
          let docs' := append_doc (docs st) (_join_docs (current_doc st) separator) in
          let '(cur, tot) := pop_front _len (current_doc st) (total st) in
          MergeState docs' cur tot
      end
    else st in
  let cur := current_doc st1 ++ [d] in
  MergeState (docs st1) cur (total st1 + (_len + sep_if (1 <? length cur)%nat))%Z.

(** Modelled from the spec: the splitter's [_merge_splits] is missing from
    the sources.  Small pieces are gathered into chunks of at most
    [chunk_size] characters. *)
Definition _merge_splits (splits : list str) : list str :=
  let st := fold_left merge_step splits (MergeState [] [] 0%Z) in
  append_doc (docs st) (_join_docs (current_doc st) separator).

End Merge.

Section Split.

Variables chunk_size chunk_overlap : Z.

(** [keep_separator] is [True], so pieces are merged with the empty
    separator. *)
Definition merge_good (final_chunks _good_splits : list str) : list str :=
  match _good_splits with
  | [] => final_chunks
  | _ :: _ => final_chunks ++ _merge_splits chunk_size chunk_overlap [] _good_splits
  end.

(** Modelled from the spec: one iteration of the [for s in splits] loop of
    the splitter's [_split_text], missing from the sources; the state is
    [(final_chunks, _good_splits)].  A piece shorter than [chunk_size] is
    kept for merging; a longer one is split again with the separators of
    lower priority, or taken as it is when none is left.  [deeper] is the
    recursive call on [new_separators], [None] when [new_separators] is
    empty. *)
Definition split_step (deeper : option (str -> list str))
    (st : list str * list str) (s : str) : list str * list str :=
  let '(final_chunks, _good_splits) := st in
  if (len s <? chunk_size)%Z then (final_chunks, _good_splits ++ [s])
  else
    let final_chunks := merge_good final_chunks _good_splits in
    match deeper with
    | None => (final_chunks ++ [s], [])
    | Some other_info => (final_chunks ++ other_info s, [])
    end.

Definition split_with (separator : str) (deeper : option (str -> list str))
    (text : str) : list str :=
  let splits := _split_text_with_regex text separator in
  let '(final_chunks, _good_splits) := fold_left (split_step deeper) splits ([], []) in
  merge_good final_chunks _good_splits.

(** Modelled from the spec: the splitter's [_split_text] is missing from
    the sources; this is [_split_text(text, [s] + rest)].  The search loop
    takes [s] when it is the empty string (then [new_separators] stays
    empty) or when it occurs in [text] (then [new_separators] is [rest]);
    when no separator is taken, the last one is used with no
    [new_separators]. *)
Fixpoint _split_text_from (s : str) (rest : list str) (text : str) {struct rest}
    : list str :=
  match rest with
  | [] => split_with s None text
  | s' :: rest' =>
      if negb (truthy s) then split_with s None text
      else if contains s text
      then split_with s (Some (_split_text_from s' rest')) text
      else _split_text_from s' rest' text
  end.

(** [separators[-1]] raises on an empty list. *)
Definition _split_text (text : str) (separators : list str) : result (list str) :=
  match separators with
  | [] => Raise "list index out of range"
  | s :: rest => Ok (_split_text_from s rest text)
  end.

End Split.

(** Modelled from the spec: the constructor of the splitter is missing from
    the sources.  It refuses a non-positive [chunk_size], a negative
    [chunk_overlap], and a [chunk_overlap] larger than [chunk_size]; the
    parameters of the contract of section 4.2 are all let through. *)
Definition valid_parameters (chunk_size chunk_overlap : Z) : bool :=
  ((0 <? chunk_size)%Z && (0 <=? chunk_overlap)%Z && (chunk_overlap <=? chunk_size)%Z)%bool.

(** Modelled from the spec: the splitter's [split_text], missing from the
    sources, on a splitter built with the given parameters. *)
Definition split_text (chunk_size chunk_overlap : Z) (separators : list str)
    (text : str) : result (list str) :=
  if valid_parameters chunk_size chunk_overlap
  then _split_text chunk_size chunk_overlap text separators
  else Raise "invalid chunk_size or chunk_overlap".

End RecursiveCharacterTextSplitter.

(** ** TextProcessor *)

Module TextProcessor.

Section WithUnicode.

(** The Unicode database of the Python runtime, outside ASCII:
    [str.isalnum] of a code point, and [str.lower] of a string. *)
Variable unicode_isalnum : char -> bool.
Variable unicode_lower : str -> str.

Definition isalnum (c : char) : bool :=
  if is_ascii c then ascii_alnum c else unicode_isalnum c.

(** [\w]: alphanumeric or underscore. *)
Definition is_word (c : char) : bool := (isalnum c || N.eqb c UNDERSCORE)%bool.

Definition lower (s : str) : str :=
  if forallb is_ascii s then map ascii_tolower s else unicode_lower s.

(** The allow-list: the complement of the negated character class of the
    last substitution of [clean_text], that is word characters, whitespace
    and the punctuation of [kept_punctuation]. *)
Definition allowed (c : char) : bool :=
  (is_word c || isspace c || is_kept_punctuation c)%bool.

Definition disallowed (c : char) : bool := negb (allowed c).

(** The first three statements of [clean_text]. *)
Definition collapse_whitespace (text : str) : str := re_sub isspace [SP] text.
Definition collapse_newlines (text : str) : str := re_sub (N.eqb LF) [LF] text.

Definition clean_text (text : str) : str :=
  let text := collapse_whitespace text in
  let text := collapse_newlines text in
  let text := strip text in
  let text := re_sub disallowed [] text in
  text.

(** The [separators] argument of the splitter: a blank line, a line
    break, a space and the empty string. *)
Definition separators : list str := [[LF; LF]; [LF]; [SP]; []].

(** [chunk_text] over any splitter: the comprehension keeps the raw
    pieces whose [strip()] is non-empty and cleans each of them. *)
Definition clean_chunks (chunks : list str) : list str :=
  map clean_text (filter (fun chunk => truthy (strip chunk)) chunks).

Definition chunk_text (text : str) (chunk_size chunk_overlap : Z) : result (list str) :=
  match RecursiveCharacterTextSplitter.split_text chunk_size chunk_overlap separators text with
  | Raise msg => Raise msg
  | Ok chunks => Ok (clean_chunks chunks)
  end.

(** *** extract_keywords *)

Definition opt_is_word (c : option char) : bool :=
  match c with
  | Some c => is_word c
  | None => false
  end.

(** [\b] between two neighbouring characters ([None] at either end of the
    string). *)
Definition boundary (before after : option char) : bool :=
  xorb (opt_is_word before) (opt_is_word after).

(** The character before position [m] of [s], where [prev] precedes [s]. *)
Definition char_before (prev : option char) (s : str) (m : nat) : option char :=
  match m with
  | O => prev
  | S m' => nth_error s m'
  end.

(** Backtracking of the greedy [{3,}]: the largest [m] with
    [3 <= m <= 3 + extra] such that [\b] holds after [m] characters. *)
Fixpoint longest_bounded (prev : option char) (s : str) (extra : nat) : option nat :=
  let m := (3 + extra)%nat in
  if boundary (char_before prev s m) (nth_error s m) then Some m
  else
    match extra with
    | O => None
    | S extra' => longest_bounded prev s extra'
    end.

Fixpoint leading_letters (s : str) : nat :=
  match s with
  | [] => O
  | c :: s' => if ascii_letter c then S (leading_letters s') else O
  end.

(** A match of [\b[a-zA-Z]{3,}\b] that starts at the head of [s]: its
    length. *)
Definition match_here (prev : option char) (s : str) : option nat :=
  if boundary prev (nth_error s 0) then
    let n := leading_letters s in
    if (3 <=? n)%nat then longest_bounded prev s (n - 3) else None
  else None.

(** [re.findall]: the matches from left to right, without overlap.
    [skip] counts the characters of the last match still to be passed. *)
Fixpoint findall_from (prev : option char) (skip : nat) (s : str) : list str :=
  match s with
  | [] => []
  | c :: s' =>
      match skip with
      | S k => findall_from (Some c) k s'
      | O =>
          match match_here prev s with
          | Some m => firstn m s :: findall_from (Some c) (m - 1) s'
          | None => findall_from (Some c) 0 s'
          end
      end
  end.

Definition findall_words (text : str) : list str := findall_from None 0 text.

Definition stop_words : list str :=
  map py
    ["the"; "and"; "or"; "but"; "in"; "on"; "at"; "to"; "for"; "of"; "with";
     "by"; "is"; "are"; "was"; "were"; "be"; "been"; "have"; "has"; "had";
     "do"; "does"; "did"; "will"; "would"; "could"; "should"; "may"; "might";
     "can"; "this"; "that"; "these"; "those"; "a"; "an"; "as"]%string.

Definition is_stop_word (word : str) : bool := existsb (str_eqb word) stop_words.

(** A [dict] from words to counts, in insertion order. *)
Definition word_dict := list (str * nat).

Fixpoint dict_get (d : word_dict) (key : str) (default : nat) : nat :=
  match d with
  | [] => default
  | (k, v) :: d' => if str_eqb k key then v else dict_get d' key default
  end.

(** [d[key] = value]: an existing key keeps its place, a new key goes
    last. *)
Fixpoint dict_set (d : word_dict) (key : str) (value : nat) : word_dict :=
  match d with
  | [] => [(key, value)]
  | (k, v) :: d' =>
      if str_eqb k key then (k, value) :: d' else (k, v) :: dict_set d' key value
  end.

Definition count_word (word_freq : word_dict) (word : str) : word_dict :=
  dict_set word_freq word (dict_get word_freq word 0 + 1).

(** [sorted(items, key=lambda x: x[1], reverse=True)]: a stable sort, by
    descending count; items of equal count keep their order. *)
Fixpoint insert_desc (x : str * nat) (l : word_dict) : word_dict :=
  match l with
  | [] => [x]
  | y :: l' => if (snd x <? snd y)%nat then y :: insert_desc x l' else x :: l
  end.

Fixpoint sorted_desc (l : word_dict) : word_dict :=
  match l with
  | [] => []
  | x :: l' => insert_desc x (sorted_desc l')
  end.

(** The slice [l[:n]] for any integer [n]. *)
Definition slice_to (A : Type) (n : Z) (l : list A) : list A :=
  if (0 <=? n)%Z then firstn (Z.to_nat n) l
  else firstn (length l - Z.to_nat (- n)) l.

Definition keywords_of (text : str) : list str :=
  filter (fun word => negb (is_stop_word word)) (findall_words (lower text)).

Definition word_freq_of (keywords : list str) : word_dict :=
  fold_left count_word keywords [].

Definition extract_keywords (text : str) (max_keywords : Z) : list str :=
  let keywords := keywords_of text in
  let word_freq := word_freq_of keywords in
  let sorted_words := sorted_desc word_freq in
  map fst (slice_to max_keywords sorted_words).

End WithUnicode.

End TextProcessor.

(** ** EmbeddingService and RetrievalService *)

(** A metadata value: a scalar or a list (the keywords of a chunk). *)
Inductive meta_value : Type :=
| MStr (s : str)
| MInt (n : Z)
| MList (items : list str).

Definition metadata := list (str * meta_value).

Module RetrievalService.

Section WithCollaborators.

(** Python floats with the three operations the service uses: the
    literal [1], subtraction and [<=] ([a >= b] is [fle b a]). *)
Variable float : Type.
Variable fone : float.
Variable fsub : float -> float -> float.
Variable fle : float -> float -> bool.

Definition embedding := list float.

(** What [collection.query] returns with
    [include=["documents", "metadatas", "distances"]]: one inner list per
    query embedding. *)
Record query_result : Type := QueryResult {
  documents : list (list str);
  metadatas : list (list metadata);
  distances : list (list float)
}.

(** The embedding provider, the vector store and the source of random
    identifiers. *)
Variable embeddings_create : list str -> result (list embedding).
Variable collection : Type.
Variable collection_add :
  collection -> list str -> list embedding -> list metadata -> list str ->
  result unit * collection.
Variable collection_query : collection -> embedding -> Z -> result query_result.
Variable rng : Type.
Variable uuid4 : rng -> str * rng.

(** Calls to the collaborators, oldest first. *)
Inductive event : Type :=
| EmbeddingsCreate (texts : list str)
| CollectionAdd (ids : list str)
| CollectionQuery (n_results : Z).

Record world : Type := World {
  the_collection : collection;
  the_rng : rng;
  events : list event
}.

Definition record_event (w : world) (e : event) : world :=
  World (the_collection w) (the_rng w) (events w ++ [e]).

Record Settings : Type := MkSettings {
  retrieval_k : Z;
  similarity_threshold : float
}.

Record RetrievedDocument : Type := MkRetrievedDocument {
  content : str;
  doc_metadata : metadata;
  similarity_score : float
}.

(** *** EmbeddingService *)

Definition generate_embeddings (w : world) (texts : list str)
    : result (list embedding) * world :=
  let w := record_event w (EmbeddingsCreate texts) in
  match embeddings_create texts with
  | Ok embeddings => (Ok embeddings, w)
  | Raise e => (Raise ("Failed to generate embeddings: " ++ e), w)
  end.

Definition generate_embedding (w : world) (text : str)
    : result embedding * world :=
  match generate_embeddings w [text] with
  | (Ok (e :: _), w) => (Ok e, w)
  | (Ok [], w) => (Raise "list index out of range", w)
  | (Raise e, w) => (Raise e, w)
  end.

(** *** RetrievalService.add_documents *)

(** [[str(uuid.uuid4()) for _ in chunks]]. *)
Fixpoint fresh_ids (A : Type) (chunks : list A) (g : rng) : list str * rng :=
  match chunks with
  | [] => ([], g)
  | _ :: chunks' =>
      let '(id, g) := uuid4 g in
      let '(ids, g) := fresh_ids chunks' g in
      (id :: ids, g)
  end.

Definition comma_space : str := [44%N; SP].

Definition sanitize_value (value : meta_value) : meta_value :=
  match value with
  | MList items => MStr (RecursiveCharacterTextSplitter.join comma_space items)
  | _ => value
  end.

Definition sanitize (md : metadata) : metadata :=
  map (fun kv => (fst kv, sanitize_value (snd kv))) md.

Definition add_failed (e : string) : string :=
  ("Failed to add documents to vector database: " ++ e)%string.

Definition add_documents (w : world) (chunks : list str) (metadata_list : list metadata)
    : result (list str) * world :=
  match generate_embeddings w chunks with
  | (Raise e, w) => (Raise (add_failed e), w)
  | (Ok embeddings, w) =>
      let '(ids, g) := fresh_ids chunks (the_rng w) in
      let sanitized_metadata_list := map sanitize metadata_list in
      let '(added, c) :=
        collection_add (the_collection w) chunks embeddings sanitized_metadata_list ids in
      let w := World c g (events w ++ [CollectionAdd ids]) in
      match added with
      | Ok _ => (Ok ids, w)
      | Raise e => (Raise (add_failed e), w)
      end
  end.

(** *** RetrievalService.retrieve_documents *)

Definition hit : Type := str * metadata * float.

(** [zip] of the three inner lists; it stops with the shortest. *)
Fixpoint zip3 (ds : list str) (ms : list metadata) (xs : list float) : list hit :=
  match ds, ms, xs with
  | d :: ds', m :: ms', x :: xs' => (d, m, x) :: zip3 ds' ms' xs'
  | _, _, _ => []
  end.

(** The body of the [for] loop: the similarity is [1 - distance], and the
    match is appended when it reaches the threshold. *)
Definition collect (settings : Settings) (retrieved_docs : list RetrievedDocument)
    (h : hit) : list RetrievedDocument :=
  let '(doc, md, distance) := h in
  let score := fsub fone distance in
  if fle (similarity_threshold settings) score
  then retrieved_docs ++ [MkRetrievedDocument doc md score]
  else retrieved_docs.

(** From the result of the query to the list of matches; indexing an
    empty outer list raises. *)
Definition convert (settings : Settings) (results : query_result)
    : result (list RetrievedDocument) :=
  match documents results with
  | [] => Ok []
  | [] :: _ => Ok []
  | (d :: ds) :: _ =>
      match metadatas results, distances results with
      | ms :: _, xs :: _ => Ok (fold_left (collect settings) (zip3 (d :: ds) ms xs) [])
      | _, _ => Raise "list index out of range"
      end
  end.

Definition retrieve_failed (e : string) : string :=
  ("Failed to retrieve documents: " ++ e)%string.

Definition retrieve_documents (settings : Settings) (w : world) (query : str)
    (k : option Z) : result (list RetrievedDocument) * world :=
  let k := match k with None => retrieval_k settings | Some k => k end in
  match generate_embedding w query with
  | (Raise e, w) => (Raise (retrieve_failed e), w)
  | (Ok query_embedding, w) =>
      let queried := collection_query (the_collection w) query_embedding k in
      let w := record_event w (CollectionQuery k) in
      match queried with
      | Raise e => (Raise (retrieve_failed e), w)
      | Ok results =>
          match convert settings results with
          | Ok retrieved_docs => (Ok retrieved_docs, w)
          | Raise e => (Raise (retrieve_failed e), w)
          end
      end
  end.

(** The hits of a query result that the loop goes through, and the match
    made from a hit. *)
Definition hits_of (results : query_result) : list hit :=
  zip3 (hd [] (documents results)) (hd [] (metadatas results)) (hd [] (distances results)).

Definition match_of (h : hit) : RetrievedDocument :=
  let '(doc, md, distance) := h in
  MkRetrievedDocument doc md (fsub fone distance).

Definition clears (threshold : float) (m : RetrievedDocument) : bool :=
  fle threshold (similarity_score m).

(** The index hands its distances back nearest first. *)
Definition ascending (xs : list float) : Prop :=
  StronglySorted (fun a b => fle a b = true) xs.

End WithCollaborators.

End RetrievalService.

(** ** Formatting

    [str(n)] of an integer, and the text of a [str] inside a message (a
    message is kept as the UTF-8 bytes of its text). *)

Fixpoint digits (u : Decimal.uint) : str :=
  match u with
  | Decimal.Nil => []
  | Decimal.D0 u => 48%N :: digits u
  | Decimal.D1 u => 49%N :: digits u
  | Decimal.D2 u => 50%N :: digits u
  | Decimal.D3 u => 51%N :: digits u
  | Decimal.D4 u => 52%N :: digits u
  | Decimal.D5 u => 53%N :: digits u
  | Decimal.D6 u => 54%N :: digits u
  | Decimal.D7 u => 55%N :: digits u
  | Decimal.D8 u => 56%N :: digits u
  | Decimal.D9 u => 57%N :: digits u
  end.

Definition str_of_int (n : Z) : str :=
  match n with
  | Z0 => [48%N]
  | Zpos p => digits (Pos.to_uint p)
  | Zneg p => 45%N :: digits (Pos.to_uint p)
  end.

Definition utf8_char (c : char) : list ascii :=
  if (c <? 128)%N then [ascii_of_N c]
  else if (c <? 2048)%N then
    [ascii_of_N (192 + c / 64); ascii_of_N (128 + c mod 64)]
  else if (c <? 65536)%N then
    [ascii_of_N (224 + c / 4096); ascii_of_N (128 + (c / 64) mod 64);
     ascii_of_N (128 + c mod 64)]
  else
    [ascii_of_N (240 + c / 262144); ascii_of_N (128 + (c / 4096) mod 64);
     ascii_of_N (128 + (c / 64) mod 64); ascii_of_N (128 + c mod 64)].

Definition show (s : str) : string :=
  string_of_list_ascii (flat_map utf8_char s).

(** [s.endswith(suffix)]. *)
Definition endswith (s suffix : str) : bool :=
  RecursiveCharacterTextSplitter.is_prefix (rev suffix) (rev s).

(** ** GenerationService *)

Module GenerationService.

Record message : Type := Message {
  role : str;
  message_content : str
}.

Section WithCollaborators.

Variable float : Type.

(** [str(value)] of a list of strings, as the runtime prints it. *)
Variable repr_list : list str -> str.

(** [client.chat.completions.create] with the configured model and the
    options of [generate_response], as a function of the messages; it
    returns the [message.content] of each choice. *)
Variable chat_completions_create : list message -> result (list (option str)).

(** [metadata.get(key)]. *)
Fixpoint metadata_get (md : metadata) (key : str) : option meta_value :=
  match md with
  | [] => None
  | (k, v) :: md' => if str_eqb k key then Some v else metadata_get md' key
  end.

(** A metadata value inside an f-string. *)
Definition format_value (v : meta_value) : str :=
  match v with
  | MStr s => s
  | MInt n => str_of_int n
  | MList items => repr_list items
  end.

Definition source_info (doc : RetrievalService.RetrievedDocument float) : str :=
  match metadata_get (RetrievalService.doc_metadata doc) (py "filename") with
  | Some v => format_value v
  | None => py "Unknown source"
  end.

(** [f"Source {i} ({source_info}):\n{doc.content}\n"]. *)
Definition context_part (i : Z) (doc : RetrievalService.RetrievedDocument float) : str :=
  py "Source " ++ str_of_int i ++ py " (" ++ source_info doc ++ py "):" ++ [LF]
  ++ RetrievalService.content doc ++ [LF].

(** The loop over [enumerate(retrieved_docs, i)]. *)
Fixpoint context_parts (i : Z) (retrieved_docs : list (RetrievalService.RetrievedDocument float))
    : list str :=
  match retrieved_docs with
  | [] => []
  | doc :: docs => context_part i doc :: context_parts (i + 1) docs
  end.

Definition _prepare_context
    (retrieved_docs : list (RetrievalService.RetrievedDocument float)) : str :=
  match retrieved_docs with
  | [] => py "No relevant documents found."
  | _ :: _ => RecursiveCharacterTextSplitter.join [LF] (context_parts 1 retrieved_docs)
  end.

Definition _create_prompt (query context : str) : str :=
  py "Context:" ++ [LF] ++ context ++ [LF; LF]
  ++ py "Question: " ++ query ++ [LF; LF]
  ++ py "Please provide a comprehensive answer based on the context above. If the context doesn't contain sufficient information to answer the question, please state that clearly.".

Definition system_message : message :=
  Message (py "system")
    (py "You are a helpful assistant that answers questions based on the provided context. Use only the information from the context to answer questions. If the context doesn't contain enough information to answer the question, say so clearly. Always be accurate and cite the relevant parts of the context.").

Definition generation_failed (e : string) : string :=
  ("Failed to generate response: " ++ e)%string.

(** [calls] is the list of the message lists sent to the model so far. *)
Definition generate_response (calls : list (list message)) (query : str)
    (retrieved_docs : list (RetrievalService.RetrievedDocument float))
    : result str * list (list message) :=
  let context := _prepare_context retrieved_docs in
  let prompt := _create_prompt query context in
  let messages := [system_message; Message (py "user") prompt] in
  let calls := calls ++ [messages] in
  match chat_completions_create messages with
  | Raise e => (Raise (generation_failed e), calls)
  | Ok [] => (Raise (generation_failed "list index out of range"), calls)
  | Ok (None :: _) =>
      (Raise (generation_failed "'NoneType' object has no attribute 'strip'"), calls)
  | Ok (Some content :: _) => (Ok (strip content), calls)
  end.

End WithCollaborators.

End GenerationService.

(** ** DocumentService *)

Module DocumentService.

Definition bytes := list Byte.byte.

(** The settings that the document service reads. *)
Record DocumentSettings : Type := MkDocumentSettings {
  chunk_size : Z;
  chunk_overlap : Z;
  max_file_size : Z
}.

(** The dictionary that [_process_document] returns. *)
Record ProcessResult : Type := MkProcessResult {
  result_filename : str;
  file_type : str;
  file_size : Z;
  chunk_count : Z;
  chunk_ids : list str;
  upload_time : str
}.

Definition pdf_type : str := py "application/pdf".
Definition docx_type : str :=
  py "application/vnd.openxmlformats-officedocument.wordprocessingml.document".
Definition text_type : str := py "text/plain".

Definition get_supported_formats : list str := [pdf_type; docx_type; text_type].

(** The loop [text += part + "\n"]. *)
Definition lines_of (parts : list str) : str := flat_map (fun part => part ++ [LF]) parts.

Definition base_metadata (filename content_type : str) (file_size : Z)
    (upload_time : str) (total_chunks : Z) : metadata :=
  [(py "filename", MStr filename);
   (py "file_type", MStr content_type);
   (py "file_size", MInt file_size);
   (py "upload_time", MStr upload_time);
   (py "total_chunks", MInt total_chunks)].

Section WithCollaborators.

Variable unicode_isalnum : char -> bool.
Variable unicode_lower : str -> str.
Variable float : Type.
Variable embeddings_create : list str -> result (list (RetrievalService.embedding float)).
Variable collection : Type.
Variable collection_add :
  collection -> list str -> list (RetrievalService.embedding float) -> list metadata ->
  list str -> result unit * collection.
Variable rng : Type.
Variable uuid4 : rng -> str * rng.

(** The readers of the three formats: the texts of the pages of a PDF file,
    the texts of the paragraphs of a DOCX file, and [bytes.decode('utf-8')]. *)
Variable pdf_pages : bytes -> result (list str).
Variable docx_paragraphs : bytes -> result (list str).
Variable decode_utf8 : bytes -> result str.

Variable settings : DocumentSettings.

Definition _extract_text_from_pdf (file_content : bytes) : result str :=
  match pdf_pages file_content with
  | Ok pages => Ok (lines_of pages)
  | Raise e => Raise e
  end.

Definition _extract_text_from_docx (file_content : bytes) : result str :=
  match docx_paragraphs file_content with
  | Ok paragraphs => Ok (lines_of paragraphs)
  | Raise e => Raise e
  end.

(** [filename.lower().endswith(extension)]. *)
Definition has_extension (filename : str) (extension : string) : bool :=
  endswith (TextProcessor.lower unicode_lower filename) (py extension).

Definition extraction_failed (e : string) : string :=
  ("Failed to extract text from file: " ++ e)%string.

Definition _extract_text (file_content : bytes) (filename content_type : str)
    : result str :=
  let extracted :=
    if (str_eqb content_type pdf_type || has_extension filename ".pdf")%bool then
      _extract_text_from_pdf file_content
    else if (str_eqb content_type docx_type || has_extension filename ".docx")%bool then
      _extract_text_from_docx file_content
    else if (str_eqb content_type text_type || has_extension filename ".txt")%bool then
      decode_utf8 file_content
    else
      match decode_utf8 file_content with
      | Ok text => Ok text
      | Raise _ => Raise ("Unsupported file type: " ++ show content_type)%string
      end in
  match extracted with
  | Ok text => Ok text
  | Raise e => Raise (extraction_failed e)
  end.

(** The metadata of the chunk at position [i]: a copy of the base metadata,
    updated with three more keys. *)
Definition chunk_metadata (base : metadata) (i : Z) (chunk : str) : metadata :=
  base
  ++ [(py "chunk_index", MInt i);
      (py "chunk_text_length", MInt (len chunk));
      (py "keywords",
       MList (TextProcessor.extract_keywords unicode_isalnum unicode_lower chunk 5))].

(** The loop over [enumerate(chunks)], from position [i] on. *)
Fixpoint metadata_from (base : metadata) (i : Z) (chunks : list str) : list metadata :=
  match chunks with
  | [] => []
  | chunk :: chunks' => chunk_metadata base i chunk :: metadata_from base (i + 1) chunks'
  end.

(** [now] is the reading of the clock, [datetime.now().isoformat()]. *)
Definition _process_document (w : RetrievalService.world collection rng) (now : str)
    (text filename content_type : str) (file_size : Z)
    : result ProcessResult * RetrievalService.world collection rng :=
  let cleaned_text := TextProcessor.clean_text unicode_isalnum text in
  match TextProcessor.chunk_text unicode_isalnum cleaned_text
          (chunk_size settings) (chunk_overlap settings) with
  | Raise e => (Raise e, w)
  | Ok chunks =>
      match chunks with
      | [] => (Raise "No valid chunks could be created from the document", w)
      | _ :: _ =>
          let total := Z.of_nat (length chunks) in
          let base := base_metadata filename content_type file_size now total in
          let metadata_list := metadata_from base 0 chunks in
          match RetrievalService.add_documents embeddings_create collection_add uuid4
                  w chunks metadata_list with
          | (Raise e, w) => (Raise e, w)
          | (Ok chunk_ids, w) =>
              (Ok (MkProcessResult filename content_type file_size total chunk_ids now), w)
          end
      end
  end.

Definition processing_failed (e : string) : string :=
  ("Failed to process file: " ++ e)%string.

Definition process_uploaded_file (w : RetrievalService.world collection rng) (now : str)
    (file_content : bytes) (filename content_type : str)
    : result ProcessResult * RetrievalService.world collection rng :=
  let size := Z.of_nat (length file_content) in
  if (size >? max_file_size settings)%Z then
    (Raise (processing_failed
              ("File size exceeds maximum allowed size of "
               ++ show (str_of_int (max_file_size settings)) ++ " bytes")), w)
  else
    match _extract_text file_content filename content_type with
    | Raise e => (Raise (processing_failed e), w)
    | Ok text =>
        if truthy (strip text) then
          match _process_document w now text filename content_type size with
          | (Ok result, w) => (Ok result, w)
          | (Raise e, w) => (Raise (processing_failed e), w)
          end
        else
          (Raise (processing_failed "No text could be extracted from the file"), w)
    end.

End WithCollaborators.

End DocumentService.

(** ** The endpoints of [main.py] *)

Module Main.

(** What a handler gives back: a response body, or an [HTTPException]. *)
Inductive http (A : Type) : Type :=
| Respond (body : A)
| HTTPException (status_code : Z) (detail : string).

Arguments Respond {A} body.
Arguments HTTPException {A} status_code detail.

Record UploadFile : Type := MkUploadFile {
  upload_filename : option str;
  upload_content_type : option str;
  upload_content : DocumentService.bytes
}.

Record QueryRequest : Type := MkQueryRequest {
  query : str;
  max_results : option Z;
  include_sources : option bool
}.

(** A value of the dictionary of [get_collection_stats]. *)
Inductive stat_value : Type :=
| StatInt (n : Z)
| StatStr (s : str)
| StatError (e : string).

Definition stats_dict := list (str * stat_value).

Fixpoint stats_get (stats : stats_dict) (key : str) : option stat_value :=
  match stats with
  | [] => None
  | (k, v) :: stats' => if str_eqb k key then Some v else stats_get stats' key
  end.

Record HealthResponse : Type := MkHealthResponse {
  status : str;
  timestamp : str;
  version : str;
  vector_database : str;
  document_count : stat_value
}.

Record DocumentStats : Type := MkDocumentStats {
  stats_total_documents : stat_value;
  stats_collection_name : stat_value;
  supported_formats : list str
}.

Definition unsupported_detail : string :=
  "Unsupported file type. Supported formats: ['application/pdf', 'application/vnd.openxmlformats-officedocument.wordprocessingml.document', 'text/plain']".

Definition no_answer : str :=
  py "I couldn't find any relevant information in the uploaded documents to answer your question.".

Section WithCollaborators.

Variable unicode_isalnum : char -> bool.
Variable unicode_lower : str -> str.
Variable float : Type.
Variable fone : float.
Variable fsub : float -> float -> float.
Variable fle : float -> float -> bool.
Variable embeddings_create : list str -> result (list (RetrievalService.embedding float)).
Variable collection : Type.
Variable collection_add :
  collection -> list str -> list (RetrievalService.embedding float) -> list metadata ->
  list str -> result unit * collection.
Variable collection_query :
  collection -> RetrievalService.embedding float -> Z ->
  result (RetrievalService.query_result float).
Variable collection_count : collection -> result Z.
Variable rng : Type.
Variable uuid4 : rng -> str * rng.
Variable pdf_pages : DocumentService.bytes -> result (list str).
Variable docx_paragraphs : DocumentService.bytes -> result (list str).
Variable decode_utf8 : DocumentService.bytes -> result str.
Variable repr_list : list str -> str.
Variable chat_completions_create :
  list GenerationService.message -> result (list (option str)).

Variable document_settings : DocumentService.DocumentSettings.
Variable settings : RetrievalService.Settings float.
Variable collection_name : str.
Variable app_version : str.

(** The services of the process: the vector store with the log of the calls
    to it and to the embedding provider, and the log of the calls to the
    language model. *)
Record app_world : Type := AppWorld {
  services : RetrievalService.world collection rng;
  chat_calls : list (list GenerationService.message)
}.

Record RAGResponse : Type := MkRAGResponse {
  response_query : str;
  answer : str;
  sources : list (RetrievalService.RetrievedDocument float);
  response_time : float
}.

(** *** RetrievalService.get_collection_stats *)

Definition get_collection_stats (w : RetrievalService.world collection rng)
    : stats_dict :=
  match collection_count (RetrievalService.the_collection w) with
  | Ok count =>
      [(py "total_documents", StatInt count);
       (py "collection_name", StatStr collection_name)]
  | Raise e => [(py "error", StatError e)]
  end.

(** [stats.get(key, default)]. *)
Definition stats_get_default (stats : stats_dict) (key : str) (default : stat_value)
    : stat_value :=
  match stats_get stats key with
  | Some v => v
  | None => default
  end.

(** *** /health

    [now] is the reading of the clock.  Nothing in the [try] block raises:
    [get_collection_stats] catches what the store raises. *)
Definition health_check (w : RetrievalService.world collection rng) (now : str)
    : HealthResponse :=
  let stats := get_collection_stats w in
  let db_status :=
    match stats_get stats (py "error") with
    | None => py "healthy"
    | Some _ => py "unhealthy"
    end in
  MkHealthResponse
    (if str_eqb db_status (py "healthy") then py "healthy" else py "degraded")
    now app_version db_status
    (stats_get_default stats (py "total_documents") (StatInt 0)).

(** *** /documents/stats *)

Definition get_document_stats (w : RetrievalService.world collection rng)
    : http DocumentStats :=
  let stats := get_collection_stats w in
  Respond (MkDocumentStats
             (stats_get_default stats (py "total_documents") (StatInt 0))
             (stats_get_default stats (py "collection_name") (StatStr (py "unknown")))
             DocumentService.get_supported_formats).

(** *** /upload

    [now] is the reading of the clock inside [_process_document]. *)
Definition upload_document (w : RetrievalService.world collection rng) (now : str)
    (file : UploadFile)
    : http (str * DocumentService.ProcessResult) * RetrievalService.world collection rng :=
  match upload_filename file with
  | None => (HTTPException 400 "No filename provided", w)
  | Some filename =>
      if truthy filename then
        let supported :=
          match upload_content_type file with
          | Some content_type =>
              if existsb (str_eqb content_type) DocumentService.get_supported_formats
              then Some content_type else None
          | None => None
          end in
        match supported with
        | None => (HTTPException 400 unsupported_detail, w)
        | Some content_type =>
            match DocumentService.process_uploaded_file unicode_isalnum unicode_lower
                    embeddings_create collection_add uuid4 pdf_pages docx_paragraphs
                    decode_utf8 document_settings w now (upload_content file)
                    filename content_type with
            | (Ok result, w) =>
                (Respond (py "Document uploaded and processed successfully", result), w)
            | (Raise e, w) => (HTTPException 500 e, w)
            end
        end
      else (HTTPException 400 "No filename provided", w)
  end.

(** *** /query

    [start_time] and [end_time] are the two readings of [time.time()]. *)
Definition query_documents (aw : app_world) (start_time end_time : float)
    (request : QueryRequest) : http RAGResponse * app_world :=
  match RetrievalService.retrieve_documents fone fsub fle embeddings_create
          collection_query settings (services aw) (query request) (max_results request) with
  | (Raise e, w) => (HTTPException 500 e, AppWorld w (chat_calls aw))
  | (Ok retrieved_docs, w) =>
      let '(answered, calls) :=
        match retrieved_docs with
        | _ :: _ =>
            GenerationService.generate_response repr_list chat_completions_create
              (chat_calls aw) (query request) retrieved_docs
        | [] => (Ok no_answer, chat_calls aw)
        end in
      match answered with
      | Raise e => (HTTPException 500 e, AppWorld w calls)
      | Ok answer =>
          let sources :=
            match include_sources request with
            | Some true => retrieved_docs
            | _ => []
            end in
          (Respond (MkRAGResponse (query request) answer sources
                      (fsub end_time start_time)),
           AppWorld w calls)
      end
  end.

End WithCollaborators.

End Main.

(** ** Collaborators for examples

    Scores as rationals; a provider that embeds every text as one number
    and a provider that always fails; a vector store that keeps its hits
    with their distances and hands all of them back. *)

Module Demo.

Definition float := Q.
Definition fone : float := 1%Q.
Definition fsub : float -> float -> float := Qminus.
Definition fle : float -> float -> bool := Qle_bool.

Definition embeddings_create (texts : list str) : result (list (list float)) :=
  Ok (map (fun _ => [fone]) texts).

Definition failing_embeddings_create (texts : list str) : result (list (list float)) :=
  Raise "rate limit".

Definition collection := list (str * metadata * float).

Definition collection_add (c : collection) (chunks : list str)
    (embeddings : list (list float)) (metadatas : list metadata) (ids : list str)
    : result unit * collection :=
  (Ok tt, c ++ RetrievalService.zip3 chunks metadatas (map (fun _ => fone) chunks)).

Definition collection_query (c : collection) (query : list float) (n_results : Z)
    : result (RetrievalService.query_result float) :=
  Ok (RetrievalService.QueryResult
        [map (fun h => fst (fst h)) c]
        [map (fun h => snd (fst h)) c]
        [map (fun h => snd h) c]).

Definition rng := nat.

Definition uuid4 (g : rng) : str * rng := (repeat 48%N (S g), S g).

(** Two stored chunks, at distances 0.1 and 0.5 of every query. *)
Definition two_chunks : collection :=
  [(py "near", [], 1 # 10); (py "far", [], 1 # 2)].

Definition start : RetrievalService.world collection rng :=
  RetrievalService.World two_chunks O [].

Definition settings (threshold : float) : RetrievalService.Settings float :=
  RetrievalService.MkSettings 5 threshold.

End Demo.

Module DemoApp.

Definition repr_list (items : list str) : str := [].

Definition chat_completions_create (messages : list GenerationService.message)
    : result (list (option str)) :=
  Ok [Some (py "  A grounded answer. ")].

Definition failing_chat_completions_create (messages : list GenerationService.message)
    : result (list (option str)) :=
  Raise "model overloaded".

(** ASCII bytes decode to their own code points. *)
Definition decode_utf8 (content : DocumentService.bytes) : result str :=
  if forallb (fun b => (Byte.to_N b <? 128)%N) content
  then Ok (map Byte.to_N content)
  else Raise "invalid start byte".

Definition pdf_pages (content : DocumentService.bytes) : result (list str) :=
  Raise "not a PDF file".

Definition docx_paragraphs (content : DocumentService.bytes) : result (list str) :=
  Raise "not a DOCX file".

(** A PDF reader that finds two pages without text. *)
Definition scanned_pdf_pages (content : DocumentService.bytes) : result (list str) :=
  Ok [[]; [SP; SP]].

Definition ascii_bytes (s : string) : DocumentService.bytes :=
  map byte_of_ascii (list_ascii_of_string s).

Definition document_settings : DocumentService.DocumentSettings :=
  DocumentService.MkDocumentSettings 1000 200 10485760.

Definition small_files_only : DocumentService.DocumentSettings :=
  DocumentService.MkDocumentSettings 1000 200 4.

Definition collection_count (c : Demo.collection) : result Z :=
  Ok (Z.of_nat (length c)).

Definition failing_collection_count (c : Demo.collection) : result Z :=
  Raise "database is locked".

Definition near : RetrievalService.RetrievedDocument Q :=
  RetrievalService.MkRetrievedDocument (py "Paris is the capital.")
    [(py "filename", MStr (py "atlas.txt"))] (9 # 10).

Definition far : RetrievalService.RetrievedDocument Q :=
  RetrievalService.MkRetrievedDocument (py "Rome is older.") [] (5 # 10).

End DemoApp.

(** ** Vocabulary of the properties *)

(** A piece within the size bound. *)
Definition bounded (chunk_size : Z) (s : str) : Prop := (len s <= chunk_size)%Z.

(** What the loops of [_merge_splits] keep true when pieces are joined with
    the empty separator: [total] is the length of the pieces of
    [current_doc] put together and does not exceed [chunk_size]. *)
Definition merge_inv (chunk_size : Z) (st : RecursiveCharacterTextSplitter.merge_state) : Prop :=
  RecursiveCharacterTextSplitter.total st
  = len (concat (RecursiveCharacterTextSplitter.current_doc st))
  /\ (RecursiveCharacterTextSplitter.total st <= chunk_size)%Z
  /\ Forall (bounded chunk_size) (RecursiveCharacterTextSplitter.docs st).

(** The pieces handed to [final_chunks] directly are within the bound, and
    so are the results of the recursive call. *)
Definition deeper_ok (chunk_size : Z) (deeper : option (str -> list str))
    (splits : list str) : Prop :=
  match deeper with
  | None => Forall (bounded chunk_size) splits
  | Some other_info => forall s, Forall (bounded chunk_size) (other_info s)
  end.

(** The number of occurrences of a word among the keywords, and the
    position of its first occurrence ([keywords.index(word)]; the length of
    the list for a word that does not occur). *)
Definition frequency (keywords : list str) (word : str) : nat :=
  count_occ str_eq_dec keywords word.

Fixpoint first_pos (word : str) (keywords : list str) : nat :=
  match keywords with
  | [] => O
  | w :: ws => if str_eqb w word then O else S (first_pos word ws)
  end.

(** [a] ranks before [b]: it is more frequent, or as frequent and seen
    first. *)
Definition ranks_before (keywords : list str) (a b : str) : Prop :=
  (frequency keywords b < frequency keywords a)%nat
  \/ (frequency keywords a = frequency keywords b
      /\ (first_pos a keywords < first_pos b keywords)%nat).

(** The same order on the items of the dictionary, for any order [R] of
    arrival: a larger count first, and [R] among equal counts. *)
Definition item_ranks_before (R : str * nat -> str * nat -> Prop)
    (a b : str * nat) : Prop :=
  (snd b < snd a)%nat \/ (snd a = snd b /\ R a b).

(** [a] stands somewhere before [b] in [l]. *)
Definition before (A : Type) (l : list A) (a b : A) : Prop :=
  exists l1 l2 l3, l = l1 ++ a :: l2 ++ b :: l3.

(** A character that [clean_text] neither deletes nor rewrites: on the
    allow-list and not whitespace. *)
Definition solid (unicode_isalnum : char -> bool) (c : char) : bool :=
  (TextProcessor.allowed unicode_isalnum c && negb (isspace c))%bool.

(** A text with nothing but whitespace in it (the empty text too). *)
Definition blank (s : str) : bool := forallb isspace s.

(** Whether a substitution of runs stands inside a run after it has read
    [s], having started in state [in_run]. *)
Fixpoint run_after (cls : char -> bool) (in_run : bool) (s : str) : bool :=
  match s with
  | [] => in_run
  | c :: s' => run_after cls (cls c) s'
  end.

(** A metadata value that is not a list. *)
Definition scalar_value (v : meta_value) : bool :=
  match v with
  | MList _ => false
  | _ => true
  end.

(** [a] occurs in [b] as a contiguous part ([a in b] for two strings). *)
Definition substring (a b : str) : Prop := exists before_a after_a, b = before_a ++ a ++ after_a.

(** A runtime table for examples over ASCII text, where the two tables
    above are never consulted. *)
Definition no_unicode_alnum : char -> bool := fun _ => false.
Definition no_unicode_lower : str -> str := fun s => s.

(** * Properties *)

(** ** Strings *)

Lemma py_app (a b : string) : py (a ++ b) = py a ++ py b.
Proof. induction a as [|c a IH]; simpl; [reflexivity | now rewrite IH]. Qed.

Lemma str_eqb_eq (a b : str) : str_eqb a b = true <-> a = b.
Proof.
  revert b; induction a as [|x a IH]; intros [|y b]; simpl; split;
    try discriminate; try reflexivity.
  - rewrite andb_true_iff, N.eqb_eq, IH. now intros [-> ->].
  - intros [= -> ->]. rewrite N.eqb_refl. now apply IH.
Qed.

Lemma str_eqb_refl (a : str) : str_eqb a a = true.
Proof. now apply str_eqb_eq. Qed.

Lemma str_eqb_neq (a b : str) : str_eqb a b = false <-> a <> b.
Proof.
  rewrite <- str_eqb_eq. destruct (str_eqb a b); split; congruence.
Qed.

Lemma str_eqb_sym (a b : str) : str_eqb a b = str_eqb b a.
Proof.
  destruct (str_eqb a b) eqn:E; symmetry.
  - apply str_eqb_eq in E. subst. apply str_eqb_refl.
  - apply str_eqb_neq in E. apply str_eqb_neq. congruence.
Qed.

Lemma NoDup_snoc (A : Type) (l : list A) (x : A) :
  NoDup l -> ~ In x l -> NoDup (l ++ [x]).
Proof.
  intros Hl Hx. rewrite <- (rev_involutive (l ++ [x])).
  apply NoDup_rev. rewrite rev_app_distr. simpl.
  constructor; [now rewrite <- in_rev | now apply NoDup_rev].
Qed.

Lemma lstrip_length (s : str) : (length (lstrip s) <= length s)%nat.
Proof.
  induction s as [|c s IH]; simpl; [lia|].
  destruct (isspace c); simpl; lia.
Qed.

Lemma lstrip_In (c : char) (s : str) : In c (lstrip s) -> In c s.
Proof.
  induction s as [|x s IH]; simpl; [tauto|].
  destruct (isspace x); simpl; tauto.
Qed.

Lemma strip_length (s : str) : (length (strip s) <= length s)%nat.
Proof.
  unfold strip, rstrip. rewrite length_rev.
  pose proof (lstrip_length (rev (lstrip s))) as H.
  rewrite length_rev in H. pose proof (lstrip_length s). lia.
Qed.

Lemma strip_In (c : char) (s : str) : In c (strip s) -> In c s.
Proof.
  unfold strip, rstrip. rewrite <- in_rev. intros H.
  apply lstrip_In in H. rewrite <- in_rev in H. now apply lstrip_In.
Qed.

(** ** Substitution of runs *)

Section SubRuns.

Variable cls : char -> bool.
Variable repl : str.

Lemma re_sub_runs_In (c : char) (b : bool) (s : str) :
  In c (re_sub_runs cls repl b s) -> (In c s /\ cls c = false) \/ In c repl.
Proof.
  revert b; induction s as [|x s IH]; intros b; simpl; [tauto|].
  destruct (cls x) eqn:E.
  - destruct b.
    + intros H. destruct (IH _ H); tauto.
    + rewrite in_app_iff. intros [H|H]; [tauto|]. destruct (IH _ H); tauto.
  - simpl. intros [<-|H]; [tauto|]. destruct (IH _ H); tauto.
Qed.

Lemma re_sub_runs_none (b : bool) (s : str) :
  Forall (fun c => cls c = false) s -> re_sub_runs cls repl b s = s.
Proof.
  intros H; revert b; induction H as [|x s Hx _ IH]; intros b; simpl.
  - reflexivity.
  - rewrite Hx. now rewrite IH.
Qed.

Lemma re_sub_runs_length (b : bool) (s : str) :
  (length repl <= 1)%nat ->
  (length (re_sub_runs cls repl b s) <= length s)%nat.
Proof.
  intros Hr; revert b; induction s as [|x s IH]; intros b; simpl; [lia|].
  destruct (cls x).
  - destruct b.
    + specialize (IH true). lia.
    + rewrite length_app. specialize (IH true). lia.
  - simpl. specialize (IH false). lia.
Qed.

End SubRuns.

Lemma re_sub_runs_delete (cls : char -> bool) (b : bool) (s : str) :
  re_sub_runs cls [] b s = filter (fun c => negb (cls c)) s.
Proof.
  revert b; induction s as [|x s IH]; intros b; simpl; [reflexivity|].
  destruct (cls x); simpl.
  - destruct b; simpl; apply IH.
  - now rewrite IH.
Qed.

(** ** The normalizer *)

Module TextProcessorFacts.
Import TextProcessor.

Section Normalizer.

Variable unicode_isalnum : char -> bool.

Lemma collapse_whitespace_space (c : char) (text : str) :
  In c (collapse_whitespace text) -> isspace c = true -> c = SP.
Proof.
  unfold collapse_whitespace, re_sub. intros H Hc.
  apply re_sub_runs_In in H. destruct H as [[_ H]|[H|[]]]; congruence.
Qed.

Lemma collapse_whitespace_no_newline (text : str) :
  ~ In LF (collapse_whitespace text).
Proof.
  intros H. apply collapse_whitespace_space in H; [discriminate | reflexivity].
Qed.

Lemma collapse_newlines_noop (text : str) :
  collapse_newlines (collapse_whitespace text) = collapse_whitespace text.
Proof.
  unfold collapse_newlines, re_sub. apply re_sub_runs_none.
  apply Forall_forall. intros c Hc.
  destruct (N.eqb_spec LF c) as [<-|]; [|reflexivity].
  now apply collapse_whitespace_no_newline in Hc.
Qed.

Lemma delete_disallowed (s : str) :
  re_sub (disallowed unicode_isalnum) [] s = filter (allowed unicode_isalnum) s.
Proof.
  unfold re_sub. rewrite re_sub_runs_delete.
  apply filter_ext. intros c. unfold disallowed. apply negb_involutive.
Qed.

Lemma clean_text_eq (text : str) :
  clean_text unicode_isalnum text
  = filter (allowed unicode_isalnum) (strip (collapse_whitespace text)).
Proof.
  unfold clean_text. now rewrite delete_disallowed, collapse_newlines_noop.
Qed.

Lemma clean_text_In (c : char) (text : str) :
  In c (clean_text unicode_isalnum text) ->
  In c (collapse_whitespace text) /\ allowed unicode_isalnum c = true.
Proof.
  rewrite clean_text_eq, filter_In. intros [H Ha]. split; [|exact Ha].
  now apply strip_In.
Qed.

Lemma clean_text_length (text : str) :
  (length (clean_text unicode_isalnum text) <= length text)%nat.
Proof.
  rewrite clean_text_eq.
  pose proof (filter_length_le (allowed unicode_isalnum) (strip (collapse_whitespace text))).
  pose proof (strip_length (collapse_whitespace text)).
  pose proof (@re_sub_runs_length isspace [SP] false text ltac:(simpl; lia)).
  unfold collapse_whitespace, re_sub in *. lia.
Qed.

(** C7: the output of [clean_text] has only characters of the allow-list
    (word characters, whitespace, the kept punctuation); the last
    substitution deletes the other characters and puts nothing in their
    place, so the output is the text of the third step filtered by the
    allow-list. *)
Theorem clean_text_allow_list (text : str) :
  Forall (fun c => (is_word unicode_isalnum c || isspace c || is_kept_punctuation c)%bool = true)
    (clean_text unicode_isalnum text)
  /\ clean_text unicode_isalnum text
     = filter (allowed unicode_isalnum)
         (strip (collapse_newlines (collapse_whitespace text))).
Proof.
  split.
  - apply Forall_forall. intros c Hc.
    apply clean_text_In in Hc. exact (proj2 Hc).
  - rewrite collapse_newlines_noop. apply clean_text_eq.
Qed.

(** C10: the output of [clean_text] has no newline: the first substitution
    leaves no newline behind, so the second substitution, which collapses
    runs of newlines, changes nothing. *)
Theorem clean_text_no_newline (text : str) :
  ~ In LF (clean_text unicode_isalnum text)
  /\ ~ In LF (collapse_whitespace text)
  /\ collapse_newlines (collapse_whitespace text) = collapse_whitespace text.
Proof.
  split; [|split].
  - intros H. apply clean_text_In in H.
    exact (collapse_whitespace_no_newline _ (proj1 H)).
  - apply collapse_whitespace_no_newline.
  - apply collapse_newlines_noop.
Qed.

(** C6: [clean_text] is not idempotent.  The whitespace is collapsed and
    trimmed before the characters outside the allow-list are deleted, so
    the spaces on both sides of a deleted character meet in the output
    and a second application collapses them. *)
Theorem clean_text_twice_differs :
  clean_text unicode_isalnum (py "a @ b") = py "a  b"
  /\ clean_text unicode_isalnum (clean_text unicode_isalnum (py "a @ b")) = py "a b"
  /\ clean_text unicode_isalnum (py "@ a") = py " a"
  /\ clean_text unicode_isalnum (clean_text unicode_isalnum (py "@ a")) = py "a".
Proof. repeat split; reflexivity. Qed.

End Normalizer.

End TextProcessorFacts.

(** ** The splitter: no piece is longer than [chunk_size] *)

Module SplitterFacts.
Import RecursiveCharacterTextSplitter.

Lemma len_nonneg (s : str) : (0 <= len s)%Z.
Proof. unfold len. lia. Qed.

Lemma len_app (a b : str) : len (a ++ b) = (len a + len b)%Z.
Proof. unfold len. rewrite length_app. lia. Qed.

Lemma join_empty (docs : list str) : join [] docs = concat docs.
Proof.
  induction docs as [|d ds IH]; simpl; [reflexivity|].
  destruct ds as [|d' ds'].
  - simpl. now rewrite app_nil_r.
  - now rewrite IH.
Qed.

Lemma _join_docs_len (docs : list str) (separator doc : str) :
  _join_docs docs separator = Some doc ->
  (len doc <= len (join separator docs))%Z.
Proof.
  unfold _join_docs. pose proof (strip_length (join separator docs)) as H.
  destruct (strip (join separator docs)) eqn:E; [discriminate|].
  intros [= <-]. unfold len. lia.
Qed.

Section MergeBound.

Variables chunk_size chunk_overlap : Z.

Lemma pop_front_total (_len : Z) (cur : list str) (tot : Z) :
  tot = len (concat cur) ->
  let '(cur', tot') := pop_front chunk_size chunk_overlap [] _len cur tot in
  tot' = len (concat cur')
  /\ (tot' <= tot)%Z
  /\ ((tot' + _len <= chunk_size)%Z \/ tot' = 0%Z).
Proof.
  revert tot; induction cur as [|d0 rest IH]; intros tot Htot.
  - simpl. subst tot. simpl. auto with zarith.
  - cbn [pop_front].
    unfold exceeds, sep_if, separator_len.
    replace (len []) with 0%Z by reflexivity.
    destruct (_ || _)%bool eqn:C.
    + assert (Hrest : (tot - (len d0 + (if (1 <? length (d0 :: rest))%nat then 0 else 0)))%Z
                      = len (concat rest)).
      { destruct (1 <? length (d0 :: rest))%nat; subst tot; simpl concat;
          rewrite len_app; lia. }
      specialize (IH _ Hrest).
      destruct (pop_front chunk_size chunk_overlap [] _len rest _) as [cur' tot'].
      destruct IH as (H1 & H2 & H3). repeat split; try assumption.
      pose proof (len_nonneg d0).
      destruct (1 <? length (d0 :: rest))%nat; lia.
    + apply orb_false_iff in C. destruct C as [C1 C2].
      apply andb_false_iff in C2.
      pose proof (len_nonneg (concat (d0 :: rest))).
      repeat split; [assumption | lia |].
      destruct (0 <? length (d0 :: rest))%nat; destruct C2 as [C2|C2]; lia.
Qed.

Lemma append_doc_bounded (ds cur : list str) :
  Forall (bounded chunk_size) ds ->
  (len (concat cur) <= chunk_size)%Z ->
  Forall (bounded chunk_size) (append_doc ds (_join_docs cur [])).
Proof.
  intros Hds Hcur. destruct (_join_docs cur []) as [doc|] eqn:E; simpl; [|assumption].
  apply Forall_app. split; [assumption|]. constructor; [|constructor].
  apply _join_docs_len in E. rewrite join_empty in E. unfold bounded. lia.
Qed.

Lemma merge_step_inv (st : merge_state) (d : str) :
  merge_inv chunk_size st -> bounded chunk_size d -> merge_inv chunk_size (merge_step chunk_size chunk_overlap [] st d).
Proof.
  intros (Ht & Hle & Hdocs) Hd. unfold bounded in Hd.
  assert (Hst1 : exists st1,
    merge_step chunk_size chunk_overlap [] st d
    = MergeState (docs st1) (current_doc st1 ++ [d])
        (total st1 + (len d + sep_if [] (1 <? length (current_doc st1 ++ [d]))%nat))%Z
    /\ total st1 = len (concat (current_doc st1))
    /\ (total st1 + len d <= chunk_size)%Z
    /\ Forall (bounded chunk_size) (docs st1)).
  { unfold merge_step.
    destruct (exceeds chunk_size [] (total st) (len d) (current_doc st)) eqn:E.
    - destruct (current_doc st) as [|c0 cs0] eqn:Ecur.
      + exists st. rewrite Ecur. repeat split; try assumption.
        change (len (concat [])) with 0%Z in Ht. lia.
      + pose proof (@pop_front_total (len d) (c0 :: cs0) (total st) Ht) as P.
        destruct (pop_front chunk_size chunk_overlap [] (len d) (c0 :: cs0) _)
          as [cur' tot'].
        destruct P as (P1 & P2 & P3).
        eexists (MergeState _ cur' tot'). simpl. repeat split.
        * exact P1.
        * pose proof (len_nonneg d). destruct P3; lia.
        * apply append_doc_bounded; [assumption|]. rewrite <- Ht. exact Hle.
    - exists st. repeat split; try assumption.
      unfold exceeds, sep_if, separator_len in E.
      replace (len []) with 0%Z in E by reflexivity.
      destruct (0 <? length (current_doc st))%nat; lia. }
  destruct Hst1 as (st1 & -> & H1 & H2 & H3).
  unfold merge_inv; simpl. unfold sep_if, separator_len.
  replace (len []) with 0%Z by reflexivity.
  rewrite concat_app, len_app. simpl concat. rewrite app_nil_r.
  repeat split; try assumption;
    destruct (1 <? length (current_doc st1 ++ [d]))%nat; lia.
Qed.

Lemma merge_fold_inv (splits : list str) (st : merge_state) :
  merge_inv chunk_size st -> Forall (bounded chunk_size) splits ->
  merge_inv chunk_size (fold_left (merge_step chunk_size chunk_overlap []) splits st).
Proof.
  revert st; induction splits as [|d ds IH]; intros st Hst Hs; simpl; [assumption|].
  inversion Hs; subst. apply IH; [|assumption]. now apply merge_step_inv.
Qed.

Lemma _merge_splits_bounded (splits : list str) :
  (0 <= chunk_size)%Z ->
  Forall (bounded chunk_size) splits ->
  Forall (bounded chunk_size) (_merge_splits chunk_size chunk_overlap [] splits).
Proof.
  intros Hcs Hs. unfold _merge_splits.
  destruct (@merge_fold_inv splits (MergeState [] [] 0)) as (H1 & H2 & H3).
  - repeat split; simpl; [assumption | constructor].
  - assumption.
  - apply append_doc_bounded; [assumption|]. now rewrite <- H1.
Qed.

End MergeBound.

Section SplitBound.

Variables chunk_size chunk_overlap : Z.
Hypothesis chunk_size_pos : (0 < chunk_size)%Z.

Lemma merge_good_bounded (final_chunks good : list str) :
  Forall (bounded chunk_size) final_chunks ->
  Forall (bounded chunk_size) good ->
  Forall (bounded chunk_size) (merge_good chunk_size chunk_overlap final_chunks good).
Proof.
  intros Hf Hg. unfold merge_good. destruct good as [|g gs]; [assumption|].
  apply Forall_app. split; [assumption|].
  apply _merge_splits_bounded; [lia | assumption].
Qed.

Lemma split_fold_bounded (deeper : option (str -> list str)) (splits : list str)
    (st : list str * list str) :
  deeper_ok chunk_size deeper splits ->
  Forall (bounded chunk_size) (fst st) ->
  Forall (bounded chunk_size) (snd st) ->
  let st' := fold_left (split_step chunk_size chunk_overlap deeper) splits st in
  Forall (bounded chunk_size) (fst st') /\ Forall (bounded chunk_size) (snd st').
Proof.
  revert st; induction splits as [|s ss IH]; intros [fc good] Hd Hf Hg; simpl in *.
  - auto.
  - apply IH.
    + destruct deeper; [exact Hd | now inversion Hd].
    + destruct (len s <? chunk_size)%Z; simpl; [assumption|].
      pose proof (merge_good_bounded Hf Hg) as Hm.
      destruct deeper as [other_info|]; simpl; apply Forall_app; split;
        try assumption.
      * apply Hd.
      * inversion Hd; subst. now repeat constructor.
    + destruct (len s <? chunk_size)%Z eqn:E; simpl.
      * apply Forall_app. split; [assumption|]. constructor; [|constructor].
        unfold bounded. lia.
      * destruct deeper; simpl; constructor.
Qed.

Lemma split_with_bounded (separator : str) (deeper : option (str -> list str))
    (text : str) :
  deeper_ok chunk_size deeper (_split_text_with_regex text separator) ->
  Forall (bounded chunk_size) (split_with chunk_size chunk_overlap separator deeper text).
Proof.
  intros Hd. unfold split_with.
  pose proof (@split_fold_bounded deeper (_split_text_with_regex text separator)
                ([], []) Hd (Forall_nil _) (Forall_nil _)) as H.
  simpl in H.
  destruct (fold_left _ _ _) as [fc good]. destruct H as [Hf Hg].
  now apply merge_good_bounded.
Qed.

Lemma characters_bounded (text : str) :
  Forall (bounded chunk_size) (_split_text_with_regex text []).
Proof.
  unfold _split_text_with_regex. apply Forall_forall. intros s Hs.
  apply filter_In in Hs. destruct Hs as [Hs _].
  apply in_map_iff in Hs. destruct Hs as (c & <- & _).
  unfold bounded, len. simpl. lia.
Qed.

(** When the last separator of the list is the empty string, no piece
    exceeds [chunk_size]. *)
Lemma _split_text_from_bounded (rest : list str) (s d text : str) :
  last (s :: rest) d = [] ->
  Forall (bounded chunk_size) (_split_text_from chunk_size chunk_overlap s rest text).
Proof.
  revert s text; induction rest as [|s' rest' IH]; intros s text Hlast.
  - simpl in Hlast. subst s. simpl. apply split_with_bounded. simpl.
    apply characters_bounded.
  - cbn [_split_text_from].
    change (last (s :: s' :: rest') d) with (last (s' :: rest') d) in Hlast.
    destruct s as [|c s0]; simpl negb; cbv iota.
    + apply split_with_bounded. simpl. apply characters_bounded.
    + destruct (contains (c :: s0) text).
      * apply split_with_bounded. simpl. intros t. now apply IH.
      * now apply IH.
Qed.

End SplitBound.

(** For valid parameters and a separator list that ends with the empty
    string, [split_text] returns, and every piece is within [chunk_size]. *)
Lemma split_text_bounded (chunk_size chunk_overlap : Z) (s : str) (rest : list str)
    (text : str) :
  (0 < chunk_size)%Z -> (0 <= chunk_overlap <= chunk_size)%Z ->
  last (s :: rest) s = [] ->
  exists chunks,
    split_text chunk_size chunk_overlap (s :: rest) text = Ok chunks
    /\ Forall (bounded chunk_size) chunks.
Proof.
  intros Hcs Hco Hlast. unfold split_text, valid_parameters.
  replace (0 <? chunk_size)%Z with true by (symmetry; apply Z.ltb_lt; lia).
  replace (0 <=? chunk_overlap)%Z with true by (symmetry; apply Z.leb_le; lia).
  replace (chunk_overlap <=? chunk_size)%Z with true by (symmetry; apply Z.leb_le; lia).
  simpl. eexists. split; [reflexivity|].
  now apply _split_text_from_bounded with (d := s).
Qed.

End SplitterFacts.

(** ** The chunker *)

Module ChunkerFacts.
Import TextProcessor.

Lemma clean_chunks_bounded (unicode_isalnum : char -> bool) (chunk_size : Z)
    (chunks : list str) :
  Forall (bounded chunk_size) chunks ->
  Forall (bounded chunk_size) (clean_chunks unicode_isalnum chunks).
Proof.
  intros H. unfold clean_chunks. apply Forall_forall. intros c Hc.
  apply in_map_iff in Hc. destruct Hc as (raw & <- & Hraw).
  apply filter_In in Hraw. destruct Hraw as [Hraw _].
  rewrite Forall_forall in H. specialize (H _ Hraw).
  pose proof (TextProcessorFacts.clean_text_length unicode_isalnum raw).
  unfold bounded, len in *. lia.
Qed.

(** C4, as the code has it: for valid parameters [chunk_text] returns, and
    every chunk has at most [chunk_size] characters, without exception: the
    separator list ends with the empty string, so a token longer than
    [chunk_size] is cut at character level. *)
Theorem chunk_text_within_chunk_size (unicode_isalnum : char -> bool) (text : str)
    (chunk_size chunk_overlap : Z) :
  (0 < chunk_size)%Z ->
  (0 <= chunk_overlap < chunk_size)%Z ->
  exists chunks,
    chunk_text unicode_isalnum text chunk_size chunk_overlap = Ok chunks
    /\ Forall (fun chunk => (len chunk <= chunk_size)%Z) chunks.
Proof.
  intros Hcs Hco.
  destruct (@SplitterFacts.split_text_bounded chunk_size chunk_overlap
              [LF; LF] [[LF]; [SP]; []] text Hcs ltac:(lia) eq_refl)
    as (raw & Eraw & Hraw).
  change ([LF; LF] :: [[LF]; [SP]; []]) with separators in Eraw.
  unfold chunk_text. rewrite Eraw.
  eexists. split; [reflexivity|].
  now apply clean_chunks_bounded.
Qed.

(** The scenario of the specification: three chunks of at most twenty
    characters, the second opening with what is left of the first within
    the overlap of five (nothing here), the third with the last word of the
    second. *)
Example chunk_text_scenario :
  chunk_text no_unicode_alnum
    (py "Alpha beta. Gamma delta epsilon zeta eta theta.") 20 5
  = Ok [py "Alpha beta. Gamma"; py "delta epsilon zeta"; py "zeta eta theta."].
Proof. reflexivity. Qed.

Lemma chunk_text_within_chunk_size_witness :
  (0 < 20)%Z /\ (0 <= 5 < 20)%Z
  /\ exists chunks,
       chunk_text no_unicode_alnum
         (py "Alpha beta. Gamma delta epsilon zeta eta theta.") 20 5 = Ok chunks
       /\ Forall (fun chunk => (len chunk <= 20)%Z) chunks.
Proof.
  split; [lia|]. split; [lia|].
  apply (@chunk_text_within_chunk_size no_unicode_alnum
           (py "Alpha beta. Gamma delta epsilon zeta eta theta.") 20 5); lia.
Defined.

(** C4, as the claim has it, fails: a token of ten letters with no separator
    in it, longer than a chunk size of four, is not emitted whole; it is cut
    inside the token into chunks of four characters. *)
Lemma chunk_text_cuts_long_token :
  RecursiveCharacterTextSplitter.contains [SP] (py "abcdefghij") = false
  /\ RecursiveCharacterTextSplitter.contains [LF] (py "abcdefghij") = false
  /\ (len (py "abcdefghij") >? 4)%Z = true
  /\ chunk_text no_unicode_alnum (py "abcdefghij") 4 1
     = Ok [py "abcd"; py "defg"; py "ghij"]
  /\ existsb (str_eqb (py "abcdefghij")) [py "abcd"; py "defg"; py "ghij"] = false.
Proof. repeat split; reflexivity. Qed.

(** C5: a piece made only of characters outside the allow-list passes the
    test [chunk.strip()], which looks at the raw piece, and is cleaned to the
    empty string, which is returned as a chunk; a piece such as [@ @] is
    cleaned to a single space, a chunk that is blank. *)
Theorem chunk_text_returns_blank_chunk (unicode_isalnum : char -> bool) :
  clean_chunks unicode_isalnum [py "@@@"] = [[]]
  /\ clean_chunks unicode_isalnum [py "@ @"] = [[SP]]
  /\ chunk_text unicode_isalnum (py "@@@") 1000 200 = Ok [[]]
  /\ chunk_text unicode_isalnum (py "@ @") 1000 200 = Ok [[SP]]
  /\ strip [SP] = [].
Proof. repeat split; reflexivity. Qed.

(** What the comprehension of [chunk_text] does ensure: every chunk is the
    cleaned form of a raw piece that is not blank. *)
Lemma clean_chunks_from_non_blank (unicode_isalnum : char -> bool)
    (chunks : list str) (chunk : str) :
  In chunk (clean_chunks unicode_isalnum chunks) ->
  exists raw, In raw chunks /\ strip raw <> [] /\ chunk = clean_text unicode_isalnum raw.
Proof.
  unfold clean_chunks. intros H. apply in_map_iff in H.
  destruct H as (raw & <- & Hraw). apply filter_In in Hraw.
  destruct Hraw as [Hraw Ht]. exists raw. repeat split; [assumption|].
  destruct (strip raw); [discriminate | discriminate].
Qed.

End ChunkerFacts.

(** ** Sorted lists *)

Section SortedLists.

Variables A B : Type.

Lemma StronglySorted_map (g : A -> B) (R : B -> B -> Prop) (l : list A) :
  StronglySorted (fun a b => R (g a) (g b)) l -> StronglySorted R (map g l).
Proof.
  induction 1 as [|a l Hl IH Ha]; simpl; constructor; [assumption|].
  apply Forall_forall. intros y Hy. apply in_map_iff in Hy.
  destruct Hy as (x & <- & Hx). rewrite Forall_forall in Ha. now apply Ha.
Qed.

Lemma StronglySorted_weaken (R R' : A -> A -> Prop) (l : list A) :
  (forall a b, In a l -> In b l -> R a b -> R' a b) ->
  StronglySorted R l -> StronglySorted R' l.
Proof.
  intros Himp H; induction H as [|a l Hl IH Ha]; constructor.
  - apply IH. intros x y Hx Hy. apply Himp; now right.
  - rewrite Forall_forall in *. intros y Hy. apply Himp; simpl; auto.
Qed.

Lemma StronglySorted_firstn (R : A -> A -> Prop) (n : nat) (l : list A) :
  StronglySorted R l -> StronglySorted R (firstn n l).
Proof.
  intros H; revert n; induction H as [|a l Hl IH Ha]; intros [|n]; simpl;
    try constructor.
  - apply IH.
  - rewrite Forall_forall in *. intros y Hy. apply Ha.
    rewrite <- (firstn_skipn n l). apply in_or_app. now left.
Qed.

Lemma StronglySorted_snoc (R : A -> A -> Prop) (l : list A) (x : A) :
  StronglySorted R l -> Forall (fun a => R a x) l -> StronglySorted R (l ++ [x]).
Proof.
  induction 1 as [|a l Hl IH Ha]; intros Hx; simpl.
  - repeat constructor.
  - inversion Hx; subst. constructor; [now apply IH|].
    apply Forall_app. split; [assumption | now repeat constructor].
Qed.

Lemma StronglySorted_before (R : A -> A -> Prop) (l : list A) (a b : A) :
  StronglySorted R l -> before l a b -> R a b.
Proof.
  intros H (l1 & l2 & l3 & ->). induction l1 as [|x l1 IH]; simpl in H.
  - inversion H as [|? ? _ Ha]; subst. rewrite Forall_forall in Ha.
    apply Ha. apply in_or_app. right. now left.
  - inversion H; subst. now apply IH.
Qed.

Lemma before_cons (l : list A) (x a b : A) : before l a b -> before (x :: l) a b.
Proof. intros (l1 & l2 & l3 & ->). now exists (x :: l1), l2, l3. Qed.

Lemma before_head (l : list A) (a b : A) : In b l -> before (a :: l) a b.
Proof.
  intros H. apply in_split in H. destruct H as (l2 & l3 & ->).
  now exists [], l2, l3.
Qed.

Lemma before_or_after (l : list A) (a b : A) :
  In a l -> In b l -> a <> b -> before l a b \/ before l b a.
Proof.
  induction l as [|x l IH]; simpl; [tauto|].
  intros [Ha|Ha] [Hb|Hb] Hab; subst.
  - congruence.
  - left. now apply before_head.
  - right. now apply before_head.
  - destruct (IH Ha Hb Hab); [left | right]; now apply before_cons.
Qed.

End SortedLists.

(** ** The keyword extractor *)

Module KeywordFacts.
Import TextProcessor.

(** *** Counting and first occurrences *)

Lemma frequency_snoc (l : list str) (w x : str) :
  frequency (l ++ [w]) x = (frequency l x + (if str_eqb w x then 1 else 0))%nat.
Proof.
  unfold frequency. rewrite count_occ_app. simpl.
  destruct (str_eq_dec w x) as [->|Hn].
  - now rewrite str_eqb_refl.
  - apply str_eqb_neq in Hn. now rewrite Hn.
Qed.

Lemma frequency_pos (l : list str) (x : str) : In x l <-> (0 < frequency l x)%nat.
Proof. unfold frequency. apply count_occ_In. Qed.

Lemma first_pos_In (x : str) (l : list str) :
  In x l -> (first_pos x l < length l)%nat.
Proof.
  induction l as [|w l IH]; simpl; [tauto|].
  destruct (str_eqb w x) eqn:E; [lia|].
  intros [->|H]; [now rewrite str_eqb_refl in E|]. specialize (IH H). lia.
Qed.

Lemma first_pos_app_In (x : str) (l r : list str) :
  In x l -> first_pos x (l ++ r) = first_pos x l.
Proof.
  induction l as [|w l IH]; simpl; [tauto|].
  destruct (str_eqb w x) eqn:E; [reflexivity|].
  intros [->|H]; [now rewrite str_eqb_refl in E|]. now rewrite IH.
Qed.

Lemma first_pos_app_fresh (x : str) (l : list str) :
  ~ In x l -> first_pos x (l ++ [x]) = length l.
Proof.
  induction l as [|w l IH]; simpl.
  - now rewrite str_eqb_refl.
  - intros H. destruct (str_eqb w x) eqn:E.
    + apply str_eqb_eq in E. tauto.
    + rewrite IH; tauto.
Qed.

(** *** The dictionary *)

Section Tabulated.

Variable f : str -> nat.

Lemma dict_get_tabulated (K : list str) (w : str) :
  dict_get (map (fun x => (x, f x)) K) w 0
  = if in_dec str_eq_dec w K then f w else O.
Proof.
  induction K as [|x K IH]; simpl; [reflexivity|].
  destruct (str_eqb x w) eqn:E.
  - apply str_eqb_eq in E. subst x.
    destruct (str_eq_dec w w); [reflexivity | congruence].
  - apply str_eqb_neq in E. rewrite IH.
    destruct (str_eq_dec x w); [congruence|].
    destruct (in_dec str_eq_dec w K); reflexivity.
Qed.

Lemma dict_set_tabulated_old (K : list str) (w : str) (v : nat) :
  NoDup K -> In w K ->
  dict_set (map (fun x => (x, f x)) K) w v
  = map (fun x => (x, if str_eqb x w then v else f x)) K.
Proof.
  induction K as [|x K IH]; simpl; [tauto|].
  intros Hnd Hin. inversion Hnd as [|? ? Hx HK]; subst.
  destruct (str_eqb x w) eqn:E.
  - apply str_eqb_eq in E. subst x. f_equal.
    apply map_ext_in. intros y Hy.
    destruct (str_eqb y w) eqn:E'; [|reflexivity].
    apply str_eqb_eq in E'. congruence.
  - f_equal. apply IH; [assumption|].
    destruct Hin as [->|Hin]; [now rewrite str_eqb_refl in E | assumption].
Qed.

Lemma dict_set_tabulated_new (K : list str) (w : str) (v : nat) :
  ~ In w K ->
  dict_set (map (fun x => (x, f x)) K) w v = map (fun x => (x, f x)) K ++ [(w, v)].
Proof.
  induction K as [|x K IH]; simpl; [reflexivity|].
  intros Hin. destruct (str_eqb x w) eqn:E.
  - apply str_eqb_eq in E. tauto.
  - f_equal. apply IH. tauto.
Qed.

End Tabulated.

Lemma keys_tabulated (f : str -> nat) (K : list str) :
  map fst (map (fun x => (x, f x)) K) = K.
Proof. rewrite map_map. simpl. apply map_id. Qed.

Lemma word_freq_of_snoc (l : list str) (w : str) :
  word_freq_of (l ++ [w]) = count_word (word_freq_of l) w.
Proof. unfold word_freq_of. now rewrite fold_left_app. Qed.

(** One more word, counted into a dictionary that tabulates the
    frequencies of [l] over the keys [K]. *)
Lemma count_word_tabulated (l K : list str) (w : str) :
  NoDup K -> (forall x, In x K <-> In x l) ->
  count_word (map (fun x => (x, frequency l x)) K) w
  = map (fun x => (x, frequency (l ++ [w]) x))
      (if in_dec str_eq_dec w K then K else K ++ [w]).
Proof.
  intros Hnd Hin. unfold count_word. rewrite dict_get_tabulated.
  destruct (in_dec str_eq_dec w K) as [HwK|HwK].
  - rewrite dict_set_tabulated_old by assumption.
    apply map_ext. intros x. rewrite frequency_snoc, (str_eqb_sym w x).
    destruct (str_eqb x w) eqn:E; [|f_equal; lia].
    apply str_eqb_eq in E. now subst.
  - rewrite dict_set_tabulated_new by assumption.
    assert (Hwl : ~ In w l) by (intros H; now apply HwK, Hin).
    rewrite map_app. simpl. f_equal.
    + apply map_ext_in. intros x Hx. rewrite frequency_snoc.
      destruct (str_eqb w x) eqn:E; [|f_equal; lia].
      apply str_eqb_eq in E. congruence.
    + rewrite frequency_snoc, str_eqb_refl.
      unfold frequency. now rewrite (proj1 (count_occ_not_In str_eq_dec l w) Hwl).
Qed.

(** After the counting loop the dictionary holds every keyword once, in the
    order of first occurrence, with its number of occurrences. *)
Lemma word_freq_of_spec (keywords : list str) :
  word_freq_of keywords
  = map (fun w => (w, frequency keywords w)) (map fst (word_freq_of keywords))
  /\ NoDup (map fst (word_freq_of keywords))
  /\ (forall w, In w (map fst (word_freq_of keywords)) <-> In w keywords)
  /\ StronglySorted (fun a b => (first_pos a keywords < first_pos b keywords)%nat)
       (map fst (word_freq_of keywords)).
Proof.
  induction keywords as [|w l IH] using rev_ind.
  - simpl. repeat split; try constructor; simpl; tauto.
  - destruct IH as (Htab & Hnd & Hin & Hss).
    rewrite word_freq_of_snoc.
    set (K := map fst (word_freq_of l)) in *.
    rewrite Htab, (@count_word_tabulated l K w Hnd Hin), keys_tabulated.
    assert (Hold : StronglySorted
              (fun a b => (first_pos a (l ++ [w]) < first_pos b (l ++ [w]))%nat) K).
    { eapply StronglySorted_weaken; [|exact Hss].
      intros a b Ha Hb. simpl.
      rewrite !first_pos_app_In by (now apply Hin). tauto. }
    split; [reflexivity|].
    destruct (in_dec str_eq_dec w K) as [HwK|HwK].
    + split; [assumption|]. split; [|assumption].
      intros x. rewrite in_app_iff, Hin. simpl. split; [tauto|].
      intros [H|[<-|[]]]; [assumption | now apply Hin].
    + assert (Hwl : ~ In w l) by (intros H; now apply HwK, Hin).
      split; [|split].
      * apply NoDup_snoc; assumption.
      * intros x. rewrite !in_app_iff, Hin. tauto.
      * apply StronglySorted_snoc; [assumption|].
        apply Forall_forall. intros a Ha.
        rewrite first_pos_app_In by (now apply Hin).
        rewrite first_pos_app_fresh by assumption.
        apply first_pos_In. now apply Hin.
Qed.

(** *** The stable sort *)

Section StableSort.

Variable R : str * nat -> str * nat -> Prop.

Lemma insert_desc_perm (x : str * nat) (l : word_dict) :
  Permutation (insert_desc x l) (x :: l).
Proof.
  induction l as [|y l IH]; simpl; [reflexivity|].
  destruct (snd x <? snd y)%nat; [|reflexivity].
  rewrite IH. apply perm_swap.
Qed.

Lemma sorted_desc_perm (l : word_dict) : Permutation (sorted_desc l) l.
Proof.
  induction l as [|x l IH]; simpl; [reflexivity|].
  rewrite insert_desc_perm. now apply perm_skip.
Qed.

(** [x] arrived before every item of [s]: it is put after the items of a
    larger count only, so it stays before the items of its own count. *)
Lemma insert_desc_sorted (x : str * nat) (s : word_dict) :
  StronglySorted (item_ranks_before R) s ->
  Forall (R x) s ->
  StronglySorted (item_ranks_before R) (insert_desc x s).
Proof.
  induction 1 as [|y s Hs IH Hy]; intros Hx; simpl.
  - repeat constructor.
  - inversion Hx as [|? ? Hxy Hxs]; subst.
    destruct (snd x <? snd y)%nat eqn:E.
    + apply Nat.ltb_lt in E. constructor; [now apply IH|].
      apply Forall_forall. intros z Hz.
      apply (Permutation_in _ (insert_desc_perm x s)) in Hz.
      destruct Hz as [<-|Hz]; [now left|].
      rewrite Forall_forall in Hy. now apply Hy.
    + apply Nat.ltb_ge in E. constructor; [now constructor|].
      constructor.
      * unfold item_ranks_before. destruct (Nat.eq_dec (snd x) (snd y)); [right | left]; [tauto | lia].
      * rewrite Forall_forall in *. intros z Hz.
        specialize (Hy _ Hz). specialize (Hxs _ Hz).
        unfold item_ranks_before in *.
        destruct (Nat.eq_dec (snd x) (snd z)); [right; tauto | left].
        destruct Hy as [Hy|[Hy _]]; lia.
Qed.

Lemma sorted_desc_sorted (l : word_dict) :
  StronglySorted R l -> StronglySorted (item_ranks_before R) (sorted_desc l).
Proof.
  induction 1 as [|x l Hl IH Hx]; simpl; [constructor|].
  apply insert_desc_sorted; [assumption|].
  rewrite Forall_forall in *. intros z Hz. apply Hx.
  now apply (Permutation_in _ (sorted_desc_perm l)).
Qed.

End StableSort.

(** *** Slices *)

Lemma slice_to_firstn (A : Type) (n : Z) (l : list A) :
  exists m, slice_to n l = firstn m l.
Proof. unfold slice_to. destruct (0 <=? n)%Z; eexists; reflexivity. Qed.

Lemma NoDup_firstn (A : Type) (n : nat) (l : list A) : NoDup l -> NoDup (firstn n l).
Proof.
  intros H. rewrite <- (firstn_skipn n l) in H. now apply NoDup_app_remove_r in H.
Qed.

Lemma In_firstn (A : Type) (n : nat) (l : list A) (x : A) : In x (firstn n l) -> In x l.
Proof.
  intros H. rewrite <- (firstn_skipn n l). apply in_or_app. now left.
Qed.

(** *** extract_keywords *)

Section Extract.

Variable unicode_isalnum : char -> bool.
Variable unicode_lower : str -> str.

(** The result is a prefix of the keys of the sorted dictionary. *)
Lemma extract_keywords_prefix (text : str) (max_keywords : Z) :
  exists m,
    extract_keywords unicode_isalnum unicode_lower text max_keywords
    = firstn m (map fst (sorted_desc
                 (word_freq_of (keywords_of unicode_isalnum unicode_lower text)))).
Proof.
  unfold extract_keywords.
  destruct (slice_to_firstn max_keywords
              (sorted_desc (word_freq_of (keywords_of unicode_isalnum unicode_lower text))))
    as [m ->].
  exists m. symmetry. apply firstn_map.
Qed.

Lemma ranking_keys (keywords : list str) :
  Permutation (map fst (sorted_desc (word_freq_of keywords)))
    (map fst (word_freq_of keywords)).
Proof. apply Permutation_map, sorted_desc_perm. Qed.

Lemma ranking_sorted (keywords : list str) :
  StronglySorted (ranks_before keywords)
    (map fst (sorted_desc (word_freq_of keywords))).
Proof.
  destruct (word_freq_of_spec keywords) as (Htab & _ & _ & Hss).
  apply StronglySorted_map.
  apply StronglySorted_weaken with
    (R := item_ranks_before
            (fun a b => (first_pos (fst a) keywords < first_pos (fst b) keywords)%nat)).
  - intros a b Ha Hb.
    assert (Hval : forall e, In e (sorted_desc (word_freq_of keywords)) ->
                             snd e = frequency keywords (fst e)).
    { intros e He. apply (Permutation_in _ (sorted_desc_perm _)) in He.
      rewrite Htab in He. apply in_map_iff in He.
      destruct He as (w & <- & _). reflexivity. }
    unfold item_ranks_before, ranks_before.
    rewrite (Hval _ Ha), (Hval _ Hb). tauto.
  - apply sorted_desc_sorted. rewrite Htab. apply StronglySorted_map. exact Hss.
Qed.

Lemma extract_keywords_In (text : str) (max_keywords : Z) (w : str) :
  In w (extract_keywords unicode_isalnum unicode_lower text max_keywords) ->
  In w (keywords_of unicode_isalnum unicode_lower text).
Proof.
  destruct (extract_keywords_prefix text max_keywords) as [m ->].
  intros H. apply In_firstn in H.
  apply (Permutation_in _ (ranking_keys _)) in H.
  now apply (word_freq_of_spec (keywords_of unicode_isalnum unicode_lower text)).
Qed.

Lemma extract_keywords_NoDup (text : str) (max_keywords : Z) :
  NoDup (extract_keywords unicode_isalnum unicode_lower text max_keywords).
Proof.
  destruct (extract_keywords_prefix text max_keywords) as [m ->].
  apply NoDup_firstn.
  apply (Permutation_NoDup (Permutation_sym (ranking_keys _))).
  apply (word_freq_of_spec (keywords_of unicode_isalnum unicode_lower text)).
Qed.

Lemma keywords_of_no_stop_word (text : str) (w : str) :
  In w (keywords_of unicode_isalnum unicode_lower text) -> ~ In w stop_words.
Proof.
  unfold keywords_of. rewrite filter_In. intros [_ H] Hin.
  apply negb_true_iff in H. unfold is_stop_word in H.
  assert (Ht : existsb (str_eqb w) stop_words = true).
  { apply existsb_exists. exists w. split; [assumption | apply str_eqb_refl]. }
  congruence.
Qed.

(** C8, as the code has it: for a [max_keywords] that is not negative the
    result has at most [max_keywords] words; for any [max_keywords] it has
    no word twice and no stop word. *)
Theorem extract_keywords_limits (text : str) (max_keywords : Z) :
  ((0 <= max_keywords)%Z ->
   (Z.of_nat (length (extract_keywords unicode_isalnum unicode_lower text max_keywords))
      <= max_keywords)%Z)
  /\ NoDup (extract_keywords unicode_isalnum unicode_lower text max_keywords)
  /\ forall w,
       In w (extract_keywords unicode_isalnum unicode_lower text max_keywords) ->
       ~ In w stop_words.
Proof.
  split; [|split].
  - intros Hk. unfold extract_keywords, slice_to.
    replace (0 <=? max_keywords)%Z with true by (symmetry; now apply Z.leb_le).
    rewrite length_map.
    pose proof (firstn_le_length (Z.to_nat max_keywords)
      (sorted_desc (word_freq_of (keywords_of unicode_isalnum unicode_lower text)))).
    rewrite length_firstn. lia.
  - apply extract_keywords_NoDup.
  - intros w Hw. apply extract_keywords_In in Hw.
    now apply keywords_of_no_stop_word in Hw.
Qed.

(** C9: in the result a word stands before another only if it is more
    frequent, or as frequent and met first in the text; and of two words
    of the result with the same frequency, the one met first stands
    first. *)
Theorem extract_keywords_ranking (text : str) (max_keywords : Z) :
  StronglySorted (ranks_before (keywords_of unicode_isalnum unicode_lower text))
    (extract_keywords unicode_isalnum unicode_lower text max_keywords)
  /\ forall a b,
       In a (extract_keywords unicode_isalnum unicode_lower text max_keywords) ->
       In b (extract_keywords unicode_isalnum unicode_lower text max_keywords) ->
       frequency (keywords_of unicode_isalnum unicode_lower text) a
       = frequency (keywords_of unicode_isalnum unicode_lower text) b ->
       (first_pos a (keywords_of unicode_isalnum unicode_lower text)
        < first_pos b (keywords_of unicode_isalnum unicode_lower text))%nat ->
       before (extract_keywords unicode_isalnum unicode_lower text max_keywords) a b.
Proof.
  assert (Hs : StronglySorted
                 (ranks_before (keywords_of unicode_isalnum unicode_lower text))
                 (extract_keywords unicode_isalnum unicode_lower text max_keywords)).
  { destruct (extract_keywords_prefix text max_keywords) as [m ->].
    apply StronglySorted_firstn, ranking_sorted. }
  split; [exact Hs|].
  intros a b Ha Hb Hfreq Hpos.
  assert (Hab : a <> b) by (intros ->; lia).
  destruct (@before_or_after _ _ a b Ha Hb Hab) as [H|H]; [exact H|].
  apply (@StronglySorted_before _ _ _ b a Hs) in H.
  unfold ranks_before in H. lia.
Qed.

End Extract.

(** C8, as the claim has it, fails for a negative [max_keywords]: the slice
    then drops words from the end, and two of three keywords are returned
    where the bound is minus one. *)
Lemma extract_keywords_negative_limit :
  extract_keywords no_unicode_alnum no_unicode_lower (py "alpha beta gamma") (-1)
  = [py "alpha"; py "beta"]
  /\ (Z.of_nat (length (extract_keywords no_unicode_alnum no_unicode_lower
                          (py "alpha beta gamma") (-1))) >? -1)%Z = true.
Proof. split; reflexivity. Qed.

Lemma extract_keywords_limits_witness :
  (0 <= 2)%Z
  /\ (Z.of_nat (length (extract_keywords no_unicode_alnum no_unicode_lower
                          (py "the beta alpha beta, gamma alpha") 2)) <= 2)%Z
  /\ NoDup (extract_keywords no_unicode_alnum no_unicode_lower
              (py "the beta alpha beta, gamma alpha") 2)
  /\ (forall w,
        In w (extract_keywords no_unicode_alnum no_unicode_lower
                (py "the beta alpha beta, gamma alpha") 2) ->
        ~ In w stop_words)
  /\ NoDup (extract_keywords no_unicode_alnum no_unicode_lower
              (py "the beta alpha beta, gamma alpha") (-1))
  /\ (forall w,
        In w (extract_keywords no_unicode_alnum no_unicode_lower
                (py "the beta alpha beta, gamma alpha") (-1)) ->
        ~ In w stop_words).
Proof.
  split; [lia|].
  destruct (@extract_keywords_limits no_unicode_alnum no_unicode_lower
              (py "the beta alpha beta, gamma alpha") 2) as (Hlen & Hnodup & Hstop).
  split; [apply Hlen; lia|]. split; [exact Hnodup|]. split; [exact Hstop|].
  exact (proj2 (@extract_keywords_limits no_unicode_alnum no_unicode_lower
                  (py "the beta alpha beta, gamma alpha") (-1))).
Defined.

Lemma extract_keywords_ranking_witness :
  extract_keywords no_unicode_alnum no_unicode_lower
    (py "the beta alpha beta, gamma alpha") 10
  = [py "beta"; py "alpha"; py "gamma"]
  /\ before (extract_keywords no_unicode_alnum no_unicode_lower
               (py "the beta alpha beta, gamma alpha") 10) (py "beta") (py "alpha").
Proof.
  split; [reflexivity|].
  apply (proj2 (@extract_keywords_ranking no_unicode_alnum no_unicode_lower
                  (py "the beta alpha beta, gamma alpha") 10)).
  - simpl. auto.
  - simpl. auto.
  - reflexivity.
  - vm_compute. lia.
Defined.

Example extract_keywords_ties :
  extract_keywords no_unicode_alnum no_unicode_lower
    (py "the beta alpha beta, gamma alpha") 10
  = [py "beta"; py "alpha"; py "gamma"].
Proof. reflexivity. Qed.

End KeywordFacts.

(** ** Ingestion and retrieval *)

Lemma StronglySorted_filter (A : Type) (R : A -> A -> Prop) (p : A -> bool) (l : list A) :
  StronglySorted R l -> StronglySorted R (filter p l).
Proof.
  induction 1 as [|a l Hl IH Ha]; simpl; [constructor|].
  destruct (p a); [|assumption]. constructor; [assumption|].
  rewrite Forall_forall in *. intros y Hy. apply filter_In in Hy. now apply Ha.
Qed.

Lemma filter_filter_implied (A : Type) (p q : A -> bool) (l : list A) :
  (forall x, q x = true -> p x = true) -> filter q (filter p l) = filter q l.
Proof.
  intros H. induction l as [|x l IH]; simpl; [reflexivity|].
  destruct (p x) eqn:Ep; simpl.
  - destruct (q x); now rewrite IH.
  - destruct (q x) eqn:Eq; [|assumption].
    apply H in Eq. congruence.
Qed.

Lemma filter_incl_length (A : Type) (p : A -> bool) (l : list A) :
  incl (filter p l) l /\ (length (filter p l) <= length l)%nat.
Proof.
  split; [|apply filter_length_le].
  intros x Hx. now apply filter_In in Hx.
Qed.

Module RetrievalFacts.
Import RetrievalService.

Section WithCollaborators.

Variable float : Type.
Variable fone : float.
Variable fsub : float -> float -> float.
Variable fle : float -> float -> bool.
Variable embeddings_create : list str -> result (list (embedding float)).
Variable collection : Type.
Variable collection_add :
  collection -> list str -> list (embedding float) -> list metadata -> list str ->
  result unit * collection.
Variable collection_query :
  collection -> embedding float -> Z -> result (query_result float).
Variable rng : Type.
Variable uuid4 : rng -> str * rng.

(** *** The loop of retrieve_documents *)

Lemma collect_loop (settings : Settings float) (hits : list (hit float))
    (acc : list (RetrievedDocument float)) :
  fold_left (collect fone fsub fle settings) hits acc
  = acc ++ filter (clears fle (similarity_threshold settings))
             (map (match_of fone fsub) hits).
Proof.
  revert acc; induction hits as [|[[doc md] x] hits IH]; intros acc; simpl.
  - now rewrite app_nil_r.
  - rewrite IH. unfold clears at 2. simpl.
    destruct (fle (similarity_threshold settings) (fsub fone x)); simpl.
    + now rewrite <- app_assoc.
    + reflexivity.
Qed.

Lemma convert_filter (settings : Settings float) (results : query_result float)
    (docs : list (RetrievedDocument float)) :
  convert fone fsub fle settings results = Ok docs ->
  docs = filter (clears fle (similarity_threshold settings))
           (map (match_of fone fsub) (hits_of results)).
Proof.
  unfold convert, hits_of.
  destruct (documents results) as [|[|d ds] dss]; simpl.
  - now intros [= <-].
  - now intros [= <-].
  - destruct (metadatas results) as [|ms mss]; [discriminate|].
    destruct (distances results) as [|xs xss]; [discriminate|].
    intros [= <-]. now rewrite collect_loop.
Qed.

(** Whether the conversion raises does not depend on the settings. *)
Lemma convert_settings (s1 s2 : Settings float) (results : query_result float) :
  match convert fone fsub fle s1 results, convert fone fsub fle s2 results with
  | Ok _, Ok _ => True
  | Raise e1, Raise e2 => e1 = e2
  | _, _ => False
  end.
Proof.
  unfold convert.
  destruct (documents results) as [|[|d ds] dss]; try exact I.
  destruct (metadatas results) as [|ms mss]; [reflexivity|].
  destruct (distances results) as [|xs xss]; [reflexivity | exact I].
Qed.

Lemma zip3_distances (R : float -> float -> Prop) (ds : list str)
    (ms : list metadata) (xs : list float) :
  StronglySorted R xs ->
  StronglySorted (fun h1 h2 : hit float => R (snd h1) (snd h2)) (zip3 ds ms xs).
Proof.
  intros H; revert ds ms; induction H as [|x xs Hxs IH Hx]; intros ds ms.
  - destruct ds; [|destruct ms]; constructor.
  - destruct ds as [|d ds]; [constructor|].
    destruct ms as [|m ms]; [constructor|]. simpl.
    constructor; [apply IH|].
    clear IH Hxs. revert ds ms. induction Hx as [|y ys Hy _ IHx]; intros ds ms.
    + destruct ds; [|destruct ms]; constructor.
    + destruct ds as [|d' ds]; [constructor|].
      destruct ms as [|m' ms]; [constructor|]. simpl.
      constructor; [exact Hy | apply IHx].
Qed.

(** What [retrieve_documents] returns on success: the matches made from
    the hits of the query it issued on the stored collection. *)
Lemma retrieve_documents_Ok (settings : Settings float)
    (w w' : world collection rng) (query : str) (k : option Z)
    (docs : list (RetrievedDocument float)) :
  retrieve_documents fone fsub fle embeddings_create collection_query settings w query k
  = (Ok docs, w') ->
  exists query_embedding n_results results,
    collection_query (the_collection w) query_embedding n_results = Ok results
    /\ docs = filter (clears fle (similarity_threshold settings))
                (map (match_of fone fsub) (hits_of results)).
Proof.
  unfold retrieve_documents, generate_embedding, generate_embeddings.
  destruct (embeddings_create [query]) as [[|e es]|msg]; simpl; try discriminate.
  destruct (collection_query (the_collection w) e _) as [results|msg] eqn:Eq;
    [|discriminate].
  destruct (convert fone fsub fle settings results) as [ds|msg] eqn:Ec; [|discriminate].
  intros [= <- _]. apply convert_filter in Ec.
  eauto.
Qed.

(** C1: when the index hands its distances back in ascending order and
    [1 - d] does not grow with [d], then whenever a match [a] stands before
    a match [b] in the result of [retrieve_documents], the score of [a] is
    at least the score of [b]; each score is [1 - distance] of a hit of the
    index, and the matches are the hits that reach the threshold, in the
    order of the index. *)
Theorem retrieve_documents_nearest_first (settings : Settings float)
    (w w' : world collection rng) (query : str) (k : option Z)
    (docs : list (RetrievedDocument float)) :
  (forall d1 d2, fle d1 d2 = true -> fle (fsub fone d2) (fsub fone d1) = true) ->
  (forall query_embedding n_results results,
      collection_query (the_collection w) query_embedding n_results = Ok results ->
      ascending fle (hd [] (distances results))) ->
  retrieve_documents fone fsub fle embeddings_create collection_query settings w query k
  = (Ok docs, w') ->
  (forall a b, before docs a b -> fle (similarity_score b) (similarity_score a) = true)
  /\ exists query_embedding n_results results,
       collection_query (the_collection w) query_embedding n_results = Ok results
       /\ docs = filter (fun m => fle (similarity_threshold settings) (similarity_score m))
                   (map (fun h : hit float =>
                           MkRetrievedDocument (fst (fst h)) (snd (fst h))
                             (fsub fone (snd h)))
                      (hits_of results)).
Proof.
  intros Hanti Hasc Hret.
  apply retrieve_documents_Ok in Hret.
  destruct Hret as (qe & n & results & Hq & ->).
  assert (Hmap : map (match_of fone fsub) (hits_of results)
                 = map (fun h : hit float =>
                          MkRetrievedDocument (fst (fst h)) (snd (fst h))
                            (fsub fone (snd h)))
                     (hits_of results)).
  { apply map_ext. now intros [[doc md] x]. }
  split.
  - intros a b Hab.
    eapply (@StronglySorted_before _
              (fun x y => fle (similarity_score y) (similarity_score x) = true));
      [|exact Hab].
    apply StronglySorted_filter. rewrite Hmap. apply StronglySorted_map. simpl.
    eapply StronglySorted_weaken; [|apply zip3_distances, (Hasc _ _ _ Hq)].
    intros x y _ _. apply Hanti.
  - exists qe, n, results. split; [exact Hq|]. now rewrite Hmap.
Qed.

(** C2: for the same query, the same world and the same settings but the
    threshold, under a threshold [t2] that is not below [t1] the matches
    are those of the matches under [t1] that reach [t2]: a subset, and no
    more of them; and the retrieval fails under one threshold exactly when
    it fails under the other. *)
Theorem retrieve_documents_monotonic (default_k : Z) (t1 t2 : float)
    (w : world collection rng) (query : str) (k : option Z) :
  (forall a b c, fle a b = true -> fle b c = true -> fle a c = true) ->
  fle t1 t2 = true ->
  match
    fst (retrieve_documents fone fsub fle embeddings_create collection_query
           (MkSettings default_k t1) w query k),
    fst (retrieve_documents fone fsub fle embeddings_create collection_query
           (MkSettings default_k t2) w query k)
  with
  | Ok r1, Ok r2 =>
      r2 = filter (fun m => fle t2 (similarity_score m)) r1
      /\ incl r2 r1
      /\ (length r2 <= length r1)%nat
  | Raise e1, Raise e2 => e1 = e2
  | _, _ => False
  end.
Proof.
  intros Htrans Hle.
  unfold retrieve_documents, generate_embedding, generate_embeddings. simpl retrieval_k.
  destruct (embeddings_create [query]) as [[|e es]|msg]; simpl; try reflexivity.
  destruct (collection_query (the_collection w) e _) as [results|msg];
    simpl; [|reflexivity].
  pose proof (convert_settings (MkSettings default_k t1) (MkSettings default_k t2) results)
    as Hc.
  destruct (convert fone fsub fle (MkSettings default_k t1) results) as [r1|e1] eqn:E1;
    destruct (convert fone fsub fle (MkSettings default_k t2) results) as [r2|e2] eqn:E2;
    simpl; try contradiction; [|now subst].
  apply convert_filter in E1. apply convert_filter in E2. simpl in E1, E2.
  assert (Hr : r2 = filter (fun m => fle t2 (similarity_score m)) r1).
  { rewrite E1, E2. symmetry. apply filter_filter_implied.
    intros m Hm. unfold clears. now apply Htrans with t2. }
  split; [exact Hr|]. rewrite Hr. apply filter_incl_length.
Qed.

(** C3: [add_documents] calls the embedding provider on the whole batch
    before anything else, and writes to the index only after the provider
    has returned the embeddings; when the provider fails, [add_documents]
    raises, the collection is the one before the call, no identifier has
    been drawn and no write has been issued. *)
Theorem add_documents_embeds_first (w : world collection rng) (chunks : list str)
    (metadata_list : list metadata) :
  let outcome :=
    add_documents embeddings_create collection_add uuid4 w chunks metadata_list in
  (exists rest,
      events (snd outcome) = events w ++ EmbeddingsCreate chunks :: rest
      /\ (rest = [] \/ exists embeddings ids,
            embeddings_create chunks = Ok embeddings /\ rest = [CollectionAdd ids]))
  /\ forall e,
       embeddings_create chunks = Raise e ->
       fst outcome = Raise (add_failed ("Failed to generate embeddings: " ++ e))
       /\ the_collection (snd outcome) = the_collection w
       /\ the_rng (snd outcome) = the_rng w
       /\ events (snd outcome) = events w ++ [EmbeddingsCreate chunks].
Proof.
  unfold add_documents, generate_embeddings. simpl.
  destruct (embeddings_create chunks) as [embeddings|msg] eqn:E; simpl.
  - destruct (fresh_ids uuid4 chunks (the_rng w)) as [ids g].
    destruct (collection_add (the_collection w) chunks embeddings
                (map sanitize metadata_list) ids) as [added c].
    split; [|discriminate].
    exists [CollectionAdd ids]. split.
    + destruct added; simpl; now rewrite <- app_assoc.
    + right. now exists embeddings, ids.
  - split.
    + exists []. split; [reflexivity | now left].
    + intros e [= <-]. repeat split.
Qed.

End WithCollaborators.

(** *** The properties at the example collaborators *)

Lemma Q_sub_antitone (d1 d2 : Q) :
  Qle_bool d1 d2 = true -> Qle_bool (1 - d2) (1 - d1) = true.
Proof.
  rewrite !Qle_bool_iff. intros H.
  apply Qplus_le_compat; [apply Qle_refl | now apply Qopp_le_compat].
Qed.

Lemma Q_le_trans (a b c : Q) :
  Qle_bool a b = true -> Qle_bool b c = true -> Qle_bool a c = true.
Proof. rewrite !Qle_bool_iff. apply Qle_trans. Qed.

Lemma retrieve_documents_nearest_first_witness :
  exists docs w',
    retrieve_documents Demo.fone Demo.fsub Demo.fle Demo.embeddings_create
      Demo.collection_query (Demo.settings (2 # 10)) Demo.start (py "question") None
    = (Ok docs, w')
    /\ length docs = 2%nat
    /\ forall a b, before docs a b ->
         Demo.fle (similarity_score b) (similarity_score a) = true.
Proof.
  eexists. eexists. split; [reflexivity|]. split; [reflexivity|].
  refine (proj1 (@retrieve_documents_nearest_first Demo.float Demo.fone Demo.fsub
            Demo.fle Demo.embeddings_create Demo.collection Demo.collection_query
            Demo.rng (Demo.settings (2 # 10)) Demo.start _ (py "question") None _
            Q_sub_antitone _ eq_refl)).
  intros qe n results [= <-]. simpl. repeat constructor.
Defined.

Lemma retrieve_documents_monotonic_witness :
  match
    fst (retrieve_documents Demo.fone Demo.fsub Demo.fle Demo.embeddings_create
           Demo.collection_query (Demo.settings (2 # 10)) Demo.start (py "question") None),
    fst (retrieve_documents Demo.fone Demo.fsub Demo.fle Demo.embeddings_create
           Demo.collection_query (Demo.settings (7 # 10)) Demo.start (py "question") None)
  with
  | Ok r1, Ok r2 =>
      r2 = filter (fun m => Demo.fle (7 # 10) (similarity_score m)) r1
      /\ incl r2 r1
      /\ (length r2 <= length r1)%nat
  | Raise e1, Raise e2 => e1 = e2
  | _, _ => False
  end.
Proof.
  exact (@retrieve_documents_monotonic Demo.float Demo.fone Demo.fsub Demo.fle
           Demo.embeddings_create Demo.collection Demo.collection_query Demo.rng
           5%Z (2 # 10) (7 # 10) Demo.start (py "question") None Q_le_trans eq_refl).
Defined.

Lemma add_documents_embeds_first_witness :
  Demo.failing_embeddings_create [py "one"; py "two"] = Raise "rate limit"
  /\ the_collection
       (snd (add_documents Demo.failing_embeddings_create Demo.collection_add
               Demo.uuid4 Demo.start [py "one"; py "two"] [[]; []]))
     = Demo.two_chunks.
Proof.
  split; [reflexivity|].
  exact (proj1 (proj2 (proj2 (@add_documents_embeds_first Demo.float
           Demo.failing_embeddings_create Demo.collection Demo.collection_add
           Demo.rng Demo.uuid4 Demo.start [py "one"; py "two"] [[]; []])
           "rate limit"%string eq_refl))).
Defined.

(** The scenario of the specification: similarities 0.9 and 0.5 against a
    threshold of 0.7 leave the first match only. *)
Example retrieve_scenario :
  map (@content Q)
    match fst (retrieve_documents Demo.fone Demo.fsub Demo.fle Demo.embeddings_create
                 Demo.collection_query (Demo.settings (7 # 10)) Demo.start
                 (py "question") None) with
    | Ok docs => docs
    | Raise _ => []
    end
  = [py "near"].
Proof. reflexivity. Qed.

End RetrievalFacts.

(** * Further properties *)

(** ** Stripping *)

Lemma lstrip_blank (s : str) : blank s = true -> lstrip s = [].
Proof.
  induction s as [|c s IH]; simpl; [reflexivity|].
  destruct (isspace c); simpl; [exact IH | discriminate].
Qed.

Lemma strip_blank (s : str) : blank s = true -> strip s = [].
Proof. intros H. unfold strip. now rewrite (lstrip_blank s H). Qed.

Lemma blank_rev (s : str) : blank (rev s) = blank s.
Proof.
  unfold blank. induction s as [|c s IH]; simpl; [reflexivity|].
  rewrite forallb_app, IH. simpl. rewrite andb_true_r. apply andb_comm.
Qed.

Lemma lstrip_empty_blank (s : str) : lstrip s = [] -> blank s = true.
Proof.
  induction s as [|c s IH]; simpl; [reflexivity|].
  destruct (isspace c); simpl; [exact IH | discriminate].
Qed.

Lemma blank_lstrip (s : str) : blank (lstrip s) = blank s.
Proof.
  induction s as [|c s IH]; simpl; [reflexivity|].
  destruct (isspace c) eqn:E; simpl; [exact IH | now rewrite E].
Qed.

Lemma strip_empty_blank (s : str) : strip s = [] -> blank s = true.
Proof.
  unfold strip, rstrip. intros H.
  apply (f_equal (@rev char)) in H. rewrite rev_involutive in H. simpl in H.
  apply lstrip_empty_blank in H. now rewrite blank_rev, blank_lstrip in H.
Qed.

Lemma filter_lstrip (q : char -> bool) (s : str) :
  (forall c, q c = true -> isspace c = false) ->
  filter q (lstrip s) = filter q s.
Proof.
  intros Hq. induction s as [|c s IH]; simpl; [reflexivity|].
  destruct (isspace c) eqn:E; [|reflexivity].
  rewrite IH. destruct (q c) eqn:Eq; [|reflexivity].
  apply Hq in Eq. congruence.
Qed.

Lemma filter_strip (q : char -> bool) (s : str) :
  (forall c, q c = true -> isspace c = false) ->
  filter q (strip s) = filter q s.
Proof.
  intros Hq. unfold strip, rstrip.
  rewrite filter_rev, filter_lstrip, filter_rev, rev_involutive by assumption.
  now apply filter_lstrip.
Qed.

Lemma filter_re_sub_runs (q cls : char -> bool) (repl : str) (b : bool) (s : str) :
  (forall c, q c = true -> cls c = false) ->
  filter q repl = [] ->
  filter q (re_sub_runs cls repl b s) = filter q s.
Proof.
  intros Hq Hrepl. revert b; induction s as [|c s IH]; intros b; simpl; [reflexivity|].
  destruct (cls c) eqn:E.
  - assert (Eq : q c = false).
    { destruct (q c) eqn:Eq; [|reflexivity]. apply Hq in Eq. congruence. }
    rewrite Eq. destruct b; [apply IH|].
    rewrite filter_app, Hrepl. simpl. apply IH.
  - simpl. now rewrite IH.
Qed.

Lemma lstrip_lstrip (s : str) : lstrip (lstrip s) = lstrip s.
Proof.
  induction s as [|c s IH]; simpl; [reflexivity|].
  destruct (isspace c) eqn:E; [exact IH | simpl; now rewrite E].
Qed.

Lemma rstrip_snoc (s : str) (c : char) :
  rstrip (s ++ [c]) = if isspace c then rstrip s else s ++ [c].
Proof.
  unfold rstrip. rewrite rev_app_distr. simpl.
  destruct (isspace c); [reflexivity|]. simpl. now rewrite rev_involutive.
Qed.

Lemma rstrip_rstrip (s : str) : rstrip (rstrip s) = rstrip s.
Proof. unfold rstrip. now rewrite rev_involutive, lstrip_lstrip. Qed.

Lemma lstrip_snoc (s : str) (c : char) :
  lstrip (s ++ [c]) = if blank s then lstrip [c] else lstrip s ++ [c].
Proof.
  induction s as [|x s IH]; simpl; [reflexivity|].
  destruct (isspace x); simpl; [exact IH | reflexivity].
Qed.

Lemma lstrip_rstrip (s : str) : lstrip (rstrip s) = rstrip (lstrip s).
Proof.
  induction s as [|c s IH] using rev_ind; [reflexivity|].
  rewrite rstrip_snoc, lstrip_snoc.
  destruct (isspace c) eqn:E.
  - rewrite IH. destruct (blank s) eqn:B.
    + simpl. rewrite E. now rewrite (lstrip_blank s B).
    + now rewrite rstrip_snoc, E.
  - rewrite lstrip_snoc. destruct (blank s) eqn:B.
    + simpl. rewrite E. unfold rstrip. simpl. now rewrite E.
    + now rewrite rstrip_snoc, E.
Qed.

Lemma strip_strip (s : str) : strip (strip s) = strip s.
Proof.
  unfold strip. now rewrite lstrip_rstrip, lstrip_lstrip, rstrip_rstrip.
Qed.

(** ** Collapsing runs of whitespace *)

Lemma re_sub_runs_app (cls : char -> bool) (repl : str) (b : bool) (s t : str) :
  re_sub_runs cls repl b (s ++ t)
  = re_sub_runs cls repl b s ++ re_sub_runs cls repl (run_after cls b s) t.
Proof.
  revert b; induction s as [|c s IH]; intros b; simpl; [reflexivity|].
  destruct (cls c); [destruct b|]; rewrite IH; try reflexivity.
  now rewrite app_assoc.
Qed.

Lemma collapse_twice (b : bool) (s : str) :
  re_sub_runs isspace [SP] b (re_sub_runs isspace [SP] b s)
  = re_sub_runs isspace [SP] b s.
Proof.
  revert b; induction s as [|c s IH]; intros b; simpl; [reflexivity|].
  destruct (isspace c) eqn:E.
  - destruct b; [apply IH|]. simpl. f_equal. apply IH.
  - simpl. rewrite E. f_equal. apply IH.
Qed.

Lemma collapse_lstrip (b : bool) (s : str) :
  lstrip (re_sub_runs isspace [SP] b s) = re_sub_runs isspace [SP] false (lstrip s).
Proof.
  revert b; induction s as [|c s IH]; intros b; simpl; [reflexivity|].
  destruct (isspace c) eqn:E.
  - destruct b; [apply IH|]. simpl. apply IH.
  - simpl. now rewrite E.
Qed.

Lemma collapse_rstrip (b : bool) (s : str) :
  rstrip (re_sub_runs isspace [SP] b s) = re_sub_runs isspace [SP] b (rstrip s).
Proof.
  induction s as [|c s IH] using rev_ind; [reflexivity|].
  rewrite re_sub_runs_app, rstrip_snoc. simpl.
  destruct (isspace c) eqn:E.
  - rewrite <- IH. destruct (run_after isspace b s).
    + now rewrite app_nil_r.
    + now rewrite rstrip_snoc.
  - rewrite rstrip_snoc, E, re_sub_runs_app. simpl. now rewrite E.
Qed.

(** ** More on the normalizer *)

Module NormalizerExtras.
Import TextProcessor.

Section Normalizer.

Variable unicode_isalnum : char -> bool.

Lemma solid_not_space (c : char) : solid unicode_isalnum c = true -> isspace c = false.
Proof.
  unfold solid. rewrite andb_true_iff, negb_true_iff. tauto.
Qed.

Lemma solid_allowed (c : char) :
  solid unicode_isalnum c = true -> allowed unicode_isalnum c = true.
Proof. unfold solid. rewrite andb_true_iff. tauto. Qed.

Lemma filter_solid_clean_text (text : str) :
  filter (solid unicode_isalnum) (clean_text unicode_isalnum text)
  = filter (solid unicode_isalnum) text.
Proof.
  rewrite TextProcessorFacts.clean_text_eq.
  rewrite filter_filter_implied by apply solid_allowed.
  rewrite filter_strip by apply solid_not_space.
  unfold collapse_whitespace, re_sub.
  apply filter_re_sub_runs; [apply solid_not_space | reflexivity].
Qed.

(** X1: [clean_text] neither drops, adds nor reorders a character that is on
    the allow-list and is not whitespace: these characters are the same, in
    the same order, before and after. *)
Theorem clean_text_keeps_solid_characters (text : str) :
  filter (solid unicode_isalnum) (clean_text unicode_isalnum text)
  = filter (solid unicode_isalnum) text.
Proof. apply filter_solid_clean_text. Qed.

(** X2: [clean_text] never returns a text longer than its input. *)
Theorem clean_text_never_longer (text : str) :
  (len (clean_text unicode_isalnum text) <= len text)%Z.
Proof.
  pose proof (TextProcessorFacts.clean_text_length unicode_isalnum text).
  unfold len. lia.
Qed.

(** X3: the only whitespace in the output of [clean_text] is the plain
    space: tabs, line breaks and the other Unicode spaces are gone. *)
Theorem clean_text_whitespace_is_space (text : str) (c : char) :
  In c (clean_text unicode_isalnum text) -> isspace c = true -> c = SP.
Proof.
  intros Hc Hs. apply TextProcessorFacts.clean_text_In in Hc.
  eapply TextProcessorFacts.collapse_whitespace_space; [exact (proj1 Hc) | exact Hs].
Qed.

Lemma collapse_blank (b : bool) (s : str) :
  blank s = true -> blank (re_sub_runs isspace [SP] b s) = true.
Proof.
  revert b; induction s as [|c s IH]; intros b; simpl; [reflexivity|].
  destruct (isspace c) eqn:E; simpl; [|discriminate].
  intros H. destruct b; simpl; now apply IH.
Qed.

Lemma clean_text_blank (text : str) :
  blank text = true -> clean_text unicode_isalnum text = [].
Proof.
  intros H. rewrite TextProcessorFacts.clean_text_eq.
  unfold collapse_whitespace, re_sub.
  now rewrite (strip_blank _ (collapse_blank false text H)).
Qed.

(** X4: a text of whitespace only, the empty text included, is cleaned to
    the empty text. *)
Theorem clean_text_of_blank (text : str) :
  blank text = true -> clean_text unicode_isalnum text = [].
Proof. apply clean_text_blank. Qed.

Lemma strip_collapse (s : str) :
  strip (collapse_whitespace s) = collapse_whitespace (strip s).
Proof.
  unfold collapse_whitespace, re_sub, strip.
  now rewrite collapse_lstrip, collapse_rstrip.
Qed.

(** Collapsing and stripping, the two steps that come before the deletion:
    doing both a second time changes nothing. *)
Lemma strip_collapse_twice (s : str) :
  strip (collapse_whitespace (strip (collapse_whitespace s)))
  = strip (collapse_whitespace s).
Proof.
  rewrite (strip_collapse (strip (collapse_whitespace s))), strip_strip.
  rewrite (strip_collapse s).
  unfold collapse_whitespace, re_sub. apply collapse_twice.
Qed.

Lemma clean_text_of_allowed (text : str) :
  Forall (fun c => allowed unicode_isalnum c = true) text ->
  clean_text unicode_isalnum text = strip (collapse_whitespace text).
Proof.
  intros H. rewrite TextProcessorFacts.clean_text_eq.
  apply forallb_filter_id. apply forallb_forall. intros c Hc.
  apply strip_In in Hc. unfold collapse_whitespace, re_sub in Hc.
  apply re_sub_runs_In in Hc. destruct Hc as [[Hc _]|[<-|[]]].
  - rewrite Forall_forall in H. now apply H.
  - reflexivity.
Qed.

Lemma clean_text_output_allowed (text : str) :
  Forall (fun c => allowed unicode_isalnum c = true) (clean_text unicode_isalnum text).
Proof.
  apply Forall_forall. intros c Hc.
  exact (proj2 (TextProcessorFacts.clean_text_In _ _ _ Hc)).
Qed.

Lemma clean_text_fixed_on_allowed (text : str) :
  Forall (fun c => allowed unicode_isalnum c = true) text ->
  clean_text unicode_isalnum (clean_text unicode_isalnum text)
  = clean_text unicode_isalnum text.
Proof.
  intros H.
  rewrite (clean_text_of_allowed (clean_text_output_allowed text)),
    (clean_text_of_allowed H).
  apply strip_collapse_twice.
Qed.

(** X5: on a text whose characters are all on the allow-list, [clean_text]
    is idempotent. *)
Theorem clean_text_idempotent_on_allowed (text : str) :
  Forall (fun c => allowed unicode_isalnum c = true) text ->
  clean_text unicode_isalnum (clean_text unicode_isalnum text)
  = clean_text unicode_isalnum text.
Proof. apply clean_text_fixed_on_allowed. Qed.

(** X6: a third application of [clean_text] changes nothing: what the
    second application returns is a fixed point, for every input. *)
Theorem clean_text_settles (text : str) :
  clean_text unicode_isalnum
    (clean_text unicode_isalnum (clean_text unicode_isalnum text))
  = clean_text unicode_isalnum (clean_text unicode_isalnum text).
Proof. apply clean_text_fixed_on_allowed, clean_text_output_allowed. Qed.

End Normalizer.

Lemma clean_text_of_blank_witness :
  blank [SP; LF; 9%N] = true /\ clean_text no_unicode_alnum [SP; LF; 9%N] = [].
Proof.
  split; [reflexivity|].
  apply (@clean_text_of_blank no_unicode_alnum [SP; LF; 9%N]). reflexivity.
Defined.

Lemma clean_text_whitespace_is_space_witness :
  In SP (clean_text no_unicode_alnum [97%N; 9%N; 98%N]) /\ isspace SP = true /\ SP = SP.
Proof.
  split; [simpl; auto|]. split; [reflexivity|].
  apply (@clean_text_whitespace_is_space no_unicode_alnum [97%N; 9%N; 98%N] SP);
    [simpl; auto | reflexivity].
Defined.

Lemma clean_text_idempotent_on_allowed_witness :
  Forall (fun c => allowed no_unicode_alnum c = true) (py "  Hello,   world!  ")
  /\ clean_text no_unicode_alnum (clean_text no_unicode_alnum (py "  Hello,   world!  "))
     = clean_text no_unicode_alnum (py "  Hello,   world!  ").
Proof.
  assert (H : Forall (fun c => allowed no_unicode_alnum c = true)
                (py "  Hello,   world!  ")).
  { apply Forall_forall. intros c Hc. simpl in Hc.
    repeat (destruct Hc as [<-|Hc]; [reflexivity|]). destruct Hc. }
  split; [exact H|].
  exact (@clean_text_idempotent_on_allowed no_unicode_alnum _ H).
Defined.

End NormalizerExtras.

(** ** More on the keyword extractor *)

Module KeywordExtras.
Import TextProcessor.

Section Extract.

Variable unicode_isalnum : char -> bool.
Variable unicode_lower : str -> str.

Lemma longest_bounded_range (prev : option char) (s : str) (extra m : nat) :
  longest_bounded unicode_isalnum prev s extra = Some m -> (3 <= m <= 3 + extra)%nat.
Proof.
  induction extra as [|extra IH]; simpl.
  - destruct (boundary _ _ _); [|discriminate]. intros [= <-]. lia.
  - destruct (boundary _ _ _); [intros [= <-]; lia|].
    intros H. apply IH in H. lia.
Qed.

Lemma match_here_range (prev : option char) (s : str) (m : nat) :
  match_here unicode_isalnum prev s = Some m -> (3 <= m <= leading_letters s)%nat.
Proof.
  unfold match_here. destruct (boundary _ _ _); [|discriminate].
  destruct (3 <=? leading_letters s)%nat eqn:E; [|discriminate].
  apply Nat.leb_le in E. intros H. apply longest_bounded_range in H. lia.
Qed.

Lemma firstn_leading_letters (m : nat) (s : str) :
  (m <= leading_letters s)%nat ->
  length (firstn m s) = m /\ forallb ascii_letter (firstn m s) = true.
Proof.
  revert m; induction s as [|c s IH]; intros [|m]; simpl; intros H;
    try (split; reflexivity); try lia.
  destruct (ascii_letter c) eqn:E; [|lia].
  destruct (IH m ltac:(lia)) as [H1 H2]. simpl. rewrite H1, H2. auto.
Qed.

(** Every match of the pattern is a run of at least three letters taken from
    the text. *)
Lemma findall_from_words (prev : option char) (skip : nat) (s : str) (w : str) :
  In w (findall_from unicode_isalnum prev skip s) ->
  (3 <= length w)%nat /\ forallb ascii_letter w = true /\ incl w s.
Proof.
  revert prev skip; induction s as [|c s IH]; intros prev skip; simpl; [tauto|].
  assert (Hrec : forall p k, In w (findall_from unicode_isalnum p k s) ->
                 (3 <= length w)%nat /\ forallb ascii_letter w = true /\ incl w (c :: s)).
  { intros p k H. destruct (IH _ _ H) as (H1 & H2 & H3).
    repeat split; try assumption. now apply incl_tl. }
  destruct skip as [|k]; [|apply Hrec].
  destruct (match_here unicode_isalnum prev (c :: s)) as [m|] eqn:E; [|apply Hrec].
  intros [<-|H]; [|eapply Hrec, H].
  apply match_here_range in E.
  destruct (@firstn_leading_letters m (c :: s) ltac:(lia)) as [H1 H2].
  rewrite H1. repeat split; [lia | exact H2 |].
  intros x Hx. now apply KeywordFacts.In_firstn in Hx.
Qed.

(** X7: every keyword returned is a word of at least three ASCII letters;
    when the text is ASCII, the letters are lower-case. *)
Theorem extract_keywords_words (text : str) (max_keywords : Z) (w : str) :
  In w (extract_keywords unicode_isalnum unicode_lower text max_keywords) ->
  (3 <= length w)%nat
  /\ forallb ascii_letter w = true
  /\ (forallb is_ascii text = true -> forallb ascii_lower w = true).
Proof.
  intros H. apply KeywordFacts.extract_keywords_In in H.
  unfold keywords_of in H. apply filter_In in H. destruct H as [H _].
  apply findall_from_words in H. destruct H as (H1 & H2 & H3).
  repeat split; try assumption.
  intros Hascii. unfold lower in H3. rewrite Hascii in H3.
  apply forallb_forall. intros c Hc.
  assert (Hl : ascii_letter c = true) by (rewrite forallb_forall in H2; now apply H2).
  apply H3, in_map_iff in Hc. destruct Hc as (x & <- & _).
  unfold ascii_letter, ascii_tolower, ascii_upper, ascii_lower, in_range in *.
  destruct ((65 <=? x)%N && (x <=? 90)%N)%bool eqn:U.
  - apply andb_true_iff in U. destruct U as [U1 U2].
    apply N.leb_le in U1, U2.
    apply andb_true_iff. split; apply N.leb_le; lia.
  - rewrite U in Hl. now rewrite orb_false_r in Hl.
Qed.

(** X8: a smaller limit returns the beginning of what a larger limit
    returns. *)
Theorem extract_keywords_prefix_of_larger (text : str) (k1 k2 : Z) :
  (0 <= k1 <= k2)%Z ->
  extract_keywords unicode_isalnum unicode_lower text k1
  = firstn (Z.to_nat k1) (extract_keywords unicode_isalnum unicode_lower text k2).
Proof.
  intros H. unfold extract_keywords, slice_to.
  replace (0 <=? k1)%Z with true by (symmetry; apply Z.leb_le; lia).
  replace (0 <=? k2)%Z with true by (symmetry; apply Z.leb_le; lia).
  rewrite <- firstn_map, <- firstn_map, firstn_firstn.
  f_equal. lia.
Qed.

(** X9: with a limit that is at least the number of distinct keywords of
    the text, the result holds exactly the keywords of the text. *)
Theorem extract_keywords_all (text : str) (max_keywords : Z) (w : str) :
  (Z.of_nat (length (nodup str_eq_dec (keywords_of unicode_isalnum unicode_lower text)))
   <= max_keywords)%Z ->
  In w (extract_keywords unicode_isalnum unicode_lower text max_keywords)
  <-> In w (keywords_of unicode_isalnum unicode_lower text).
Proof.
  intros Hk. split; [apply KeywordFacts.extract_keywords_In|].
  set (kws := keywords_of unicode_isalnum unicode_lower text) in *.
  destruct (KeywordFacts.word_freq_of_spec kws) as (_ & Hnd & Hin & _).
  assert (Hlen : length (word_freq_of kws) = length (nodup str_eq_dec kws)).
  { rewrite <- (length_map fst). apply Permutation_length.
    apply NoDup_Permutation; [assumption | apply NoDup_nodup |].
    intros x. rewrite Hin, nodup_In. tauto. }
  intros Hw. unfold extract_keywords, slice_to. fold kws.
  replace (0 <=? max_keywords)%Z with true by (symmetry; apply Z.leb_le; lia).
  rewrite firstn_all2.
  - apply (Permutation_in _ (Permutation_sym (KeywordFacts.ranking_keys kws))).
    now apply Hin.
  - rewrite (Permutation_length (KeywordFacts.sorted_desc_perm _)). lia.
Qed.

End Extract.

(** X10: after the counting loop every keyword is a key of the dictionary
    exactly once, and looking a word up gives its number of occurrences
    among the keywords (the default for a word that was never counted). *)
Theorem word_freq_of_counts (keywords : list str) (w : str) :
  NoDup (map fst (word_freq_of keywords))
  /\ (In w (map fst (word_freq_of keywords)) <-> In w keywords)
  /\ dict_get (word_freq_of keywords) w 0 = frequency keywords w.
Proof.
  destruct (KeywordFacts.word_freq_of_spec keywords) as (Htab & Hnd & Hin & _).
  split; [exact Hnd|]. split; [apply Hin|].
  rewrite Htab, KeywordFacts.dict_get_tabulated.
  destruct (in_dec str_eq_dec w (map fst (word_freq_of keywords))) as [H|H];
    [reflexivity|].
  unfold frequency. symmetry. apply count_occ_not_In. intros Hw. now apply H, Hin.
Qed.

Lemma extract_keywords_words_witness :
  In (py "beta")
    (extract_keywords no_unicode_alnum no_unicode_lower
       (py "The BETA alpha beta, gamma alpha") 2)
  /\ (3 <= length (py "beta"))%nat.
Proof.
  assert (H : In (py "beta")
                (extract_keywords no_unicode_alnum no_unicode_lower
                   (py "The BETA alpha beta, gamma alpha") 2)) by (simpl; auto).
  split; [exact H|].
  exact (proj1 (@extract_keywords_words no_unicode_alnum no_unicode_lower _ _ _ H)).
Defined.

Lemma extract_keywords_prefix_of_larger_witness :
  (0 <= 1 <= 3)%Z
  /\ extract_keywords no_unicode_alnum no_unicode_lower
       (py "the beta alpha beta, gamma alpha") 1
     = firstn 1 (extract_keywords no_unicode_alnum no_unicode_lower
                   (py "the beta alpha beta, gamma alpha") 3).
Proof.
  split; [lia|].
  apply (@extract_keywords_prefix_of_larger no_unicode_alnum no_unicode_lower
           (py "the beta alpha beta, gamma alpha") 1 3). lia.
Defined.

Lemma extract_keywords_all_witness :
  In (py "gamma")
    (extract_keywords no_unicode_alnum no_unicode_lower
       (py "the beta alpha beta, gamma alpha") 3)
  <-> In (py "gamma")
        (keywords_of no_unicode_alnum no_unicode_lower
           (py "the beta alpha beta, gamma alpha")).
Proof.
  apply (@extract_keywords_all no_unicode_alnum no_unicode_lower
           (py "the beta alpha beta, gamma alpha") 3 (py "gamma")).
  vm_compute. discriminate.
Defined.

End KeywordExtras.

(** ** More on the chunker *)

Module SplitterExtras.
Import RecursiveCharacterTextSplitter.

(** The characters of the pieces are characters of the text: whatever
    holds of every character of the text holds of every character of every
    piece. *)
Section Characters.

Variable Q : char -> Prop.
Variables chunk_size chunk_overlap : Z.

Lemma push_front_chars (c : char) (pieces : list str) :
  Q c -> Forall (Forall Q) pieces -> Forall (Forall Q) (push_front c pieces).
Proof.
  intros Hc H. destruct pieces as [|p ps]; simpl.
  - constructor; [|constructor]. constructor; [exact Hc | constructor].
  - inversion H; subst. constructor; [now constructor | assumption].
Qed.

Lemma split_keep_chars (sep : str) (skip : nat) (text : str) :
  Forall Q text -> Forall (Forall Q) (split_keep sep skip text).
Proof.
  intros H; revert skip; induction H as [|c text Hc _ IH]; intros skip; simpl.
  - repeat constructor.
  - destruct skip as [|k]; [destruct (is_prefix sep (c :: text))|];
      try constructor; try apply push_front_chars; auto.
Qed.

Lemma _split_text_with_regex_chars (text separator : str) :
  Forall Q text -> Forall (Forall Q) (_split_text_with_regex text separator).
Proof.
  intros H. unfold _split_text_with_regex. apply Forall_forall. intros p Hp.
  apply filter_In in Hp. destruct Hp as [Hp _]. revert p Hp. apply Forall_forall.
  destruct separator as [|x sep]; [|now apply split_keep_chars].
  apply Forall_forall. intros p Hp. apply in_map_iff in Hp.
  destruct Hp as (c & <- & Hc). rewrite Forall_forall in H.
  constructor; [now apply H | constructor].
Qed.

Lemma strip_chars (s : str) : Forall Q s -> Forall Q (strip s).
Proof.
  rewrite !Forall_forall. intros H c Hc. now apply H, strip_In.
Qed.

Lemma append_doc_chars (ds cur : list str) :
  Forall (Forall Q) ds -> Forall (Forall Q) cur ->
  Forall (Forall Q) (append_doc ds (_join_docs cur [])).
Proof.
  intros Hds Hcur. unfold _join_docs. rewrite SplitterFacts.join_empty.
  assert (Hs : Forall Q (strip (concat cur))) by now apply strip_chars, Forall_concat.
  destruct (strip (concat cur)); simpl; [assumption|].
  apply Forall_app. split; [assumption | constructor; [assumption | constructor]].
Qed.

Lemma pop_front_chars (separator : str) (_len : Z) (cur : list str) (tot : Z) :
  Forall (Forall Q) cur ->
  Forall (Forall Q) (fst (pop_front chunk_size chunk_overlap separator _len cur tot)).
Proof.
  intros H; revert tot; induction H as [|d0 rest Hd Hrest IH]; intros tot; simpl.
  - constructor.
  - destruct (_ || _)%bool; [apply IH | simpl; now constructor].
Qed.

Lemma merge_step_chars (st : merge_state) (d : str) :
  Forall Q d ->
  Forall (Forall Q) (docs st) -> Forall (Forall Q) (current_doc st) ->
  Forall (Forall Q) (docs (merge_step chunk_size chunk_overlap [] st d))
  /\ Forall (Forall Q) (current_doc (merge_step chunk_size chunk_overlap [] st d)).
Proof.
  intros Hd Hdocs Hcur.
  assert (Hsnoc : forall cur, Forall (Forall Q) cur -> Forall (Forall Q) (cur ++ [d])).
  { intros cur H. apply Forall_app. split; [assumption|].
    constructor; [assumption | constructor]. }
  unfold merge_step.
  destruct (exceeds chunk_size [] (total st) (len d) (current_doc st)); [|simpl; auto].
  destruct (current_doc st) as [|c0 cs0] eqn:Ecur; [simpl; rewrite Ecur; auto|].
  pose proof (@pop_front_chars [] (len d) (c0 :: cs0) (total st) Hcur) as P.
  destruct (pop_front chunk_size chunk_overlap [] (len d) (c0 :: cs0) (total st))
    as [cur' tot'].
  simpl in *. split; [now apply append_doc_chars | now apply Hsnoc].
Qed.

Lemma merge_fold_chars (splits : list str) (st : merge_state) :
  Forall (Forall Q) splits ->
  Forall (Forall Q) (docs st) -> Forall (Forall Q) (current_doc st) ->
  Forall (Forall Q) (docs (fold_left (merge_step chunk_size chunk_overlap []) splits st))
  /\ Forall (Forall Q)
       (current_doc (fold_left (merge_step chunk_size chunk_overlap []) splits st)).
Proof.
  intros Hs; revert st; induction Hs as [|d ds Hd _ IH]; intros st Hdocs Hcur; simpl.
  - auto.
  - destruct (merge_step_chars st Hd Hdocs Hcur) as [H1 H2]. now apply IH.
Qed.

Lemma _merge_splits_chars (splits : list str) :
  Forall (Forall Q) splits ->
  Forall (Forall Q) (_merge_splits chunk_size chunk_overlap [] splits).
Proof.
  intros H. unfold _merge_splits.
  destruct (@merge_fold_chars splits (MergeState [] [] 0) H (Forall_nil _) (Forall_nil _))
    as [H1 H2].
  now apply append_doc_chars.
Qed.

Lemma merge_good_chars (final_chunks good : list str) :
  Forall (Forall Q) final_chunks -> Forall (Forall Q) good ->
  Forall (Forall Q) (merge_good chunk_size chunk_overlap final_chunks good).
Proof.
  intros Hf Hg. unfold merge_good. destruct good as [|g gs]; [assumption|].
  apply Forall_app. split; [assumption | now apply _merge_splits_chars].
Qed.

Lemma split_fold_chars (deeper : option (str -> list str)) (splits : list str)
    (st : list str * list str) :
  (forall other_info, deeper = Some other_info ->
     forall t, Forall Q t -> Forall (Forall Q) (other_info t)) ->
  Forall (Forall Q) splits ->
  Forall (Forall Q) (fst st) -> Forall (Forall Q) (snd st) ->
  let st' := fold_left (split_step chunk_size chunk_overlap deeper) splits st in
  Forall (Forall Q) (fst st') /\ Forall (Forall Q) (snd st').
Proof.
  intros Hd Hs; revert st; induction Hs as [|s ss Hq _ IH]; intros [fc good] Hf Hg;
    simpl in *; [auto|].
  apply IH; destruct (len s <? chunk_size)%Z; simpl; try assumption.
  - pose proof (merge_good_chars Hf Hg).
    destruct deeper as [other_info|]; simpl; apply Forall_app; split; try assumption.
    + now apply (Hd other_info eq_refl).
    + constructor; [assumption | constructor].
  - apply Forall_app. split; [assumption | constructor; [assumption | constructor]].
  - destruct deeper; constructor.
Qed.

Lemma split_with_chars (separator : str) (deeper : option (str -> list str))
    (text : str) :
  (forall other_info, deeper = Some other_info ->
     forall t, Forall Q t -> Forall (Forall Q) (other_info t)) ->
  Forall Q text ->
  Forall (Forall Q) (split_with chunk_size chunk_overlap separator deeper text).
Proof.
  intros Hd Ht. unfold split_with.
  pose proof (@split_fold_chars deeper _ ([], []) Hd
                (_split_text_with_regex_chars separator Ht)
                (Forall_nil _) (Forall_nil _)) as H.
  simpl in H. destruct (fold_left _ _ _) as [fc good]. destruct H.
  now apply merge_good_chars.
Qed.

Lemma _split_text_from_chars (rest : list str) (s text : str) :
  Forall Q text ->
  Forall (Forall Q) (_split_text_from chunk_size chunk_overlap s rest text).
Proof.
  revert s text; induction rest as [|s' rest' IH]; intros s text Ht; simpl.
  - apply split_with_chars; [discriminate | assumption].
  - destruct (negb (truthy s)); [apply split_with_chars; [discriminate | assumption]|].
    destruct (contains s text); [|now apply IH].
    apply split_with_chars; [|assumption].
    intros other_info [= <-] t Hq. now apply IH.
Qed.

End Characters.

End SplitterExtras.

Module ChunkerExtras.
Import TextProcessor.

Section Chunker.

Variable unicode_isalnum : char -> bool.

Lemma chunk_text_Ok (text : str) (chunk_size chunk_overlap : Z) :
  (0 < chunk_size)%Z -> (0 <= chunk_overlap <= chunk_size)%Z ->
  chunk_text unicode_isalnum text chunk_size chunk_overlap
  = Ok (clean_chunks unicode_isalnum
          (RecursiveCharacterTextSplitter._split_text_from chunk_size chunk_overlap
             [LF; LF] [[LF]; [SP]; []] text)).
Proof.
  intros Hcs Hco. unfold chunk_text, RecursiveCharacterTextSplitter.split_text,
    RecursiveCharacterTextSplitter.valid_parameters.
  replace (0 <? chunk_size)%Z with true by (symmetry; apply Z.ltb_lt; lia).
  replace (0 <=? chunk_overlap)%Z with true by (symmetry; apply Z.leb_le; lia).
  replace (chunk_overlap <=? chunk_size)%Z with true by (symmetry; apply Z.leb_le; lia).
  reflexivity.
Qed.

Lemma not_blank_has_solid (raw : str) :
  Forall (fun c => allowed unicode_isalnum c = true) raw ->
  blank raw = false ->
  exists c, In c raw /\ solid unicode_isalnum c = true.
Proof.
  induction 1 as [|x raw Hx _ IH]; simpl; [discriminate|].
  destruct (isspace x) eqn:E; simpl.
  - intros H. destruct (IH H) as (c & Hc & Hs). exists c. auto.
  - intros _. exists x. split; [now left|]. unfold solid. now rewrite Hx, E.
Qed.

Lemma has_solid_not_blank (s : str) (c : char) :
  In c s -> solid unicode_isalnum c = true -> blank s = false.
Proof.
  intros Hc Hs. destruct (blank s) eqn:B; [|reflexivity].
  unfold blank in B. rewrite forallb_forall in B. specialize (B _ Hc).
  apply NormalizerExtras.solid_not_space in Hs. congruence.
Qed.

(** Cleaning a piece that is on the allow-list and not blank gives a chunk
    that is not blank. *)
Lemma clean_text_not_blank (raw : str) :
  Forall (fun c => allowed unicode_isalnum c = true) raw ->
  blank raw = false ->
  blank (clean_text unicode_isalnum raw) = false.
Proof.
  intros Ha Hb. destruct (not_blank_has_solid Ha Hb) as (c & Hc & Hs).
  apply has_solid_not_blank with c; [|exact Hs].
  assert (H : In c (filter (solid unicode_isalnum) (clean_text unicode_isalnum raw))).
  { rewrite NormalizerExtras.filter_solid_clean_text.
    apply filter_In. auto. }
  now apply filter_In in H.
Qed.

Lemma clean_chunks_keep_content (chunks : list str) (chunk : str) :
  Forall (Forall (fun c => allowed unicode_isalnum c = true)) chunks ->
  In chunk (clean_chunks unicode_isalnum chunks) ->
  blank chunk = false.
Proof.
  intros Ha H. unfold clean_chunks in H. apply in_map_iff in H.
  destruct H as (raw & <- & Hraw). apply filter_In in Hraw.
  destruct Hraw as [Hraw Ht]. rewrite Forall_forall in Ha.
  apply clean_text_not_blank; [now apply Ha|].
  destruct (blank raw) eqn:B; [|reflexivity].
  now rewrite (strip_blank raw B) in Ht.
Qed.

(** X11: when the raw pieces have only characters of the allow-list, as the
    pieces of a text that went through [clean_text] have, no chunk kept by
    the comprehension of [chunk_text] is empty or blank. *)
Theorem clean_chunks_not_blank (chunks : list str) (chunk : str) :
  Forall (Forall (fun c => allowed unicode_isalnum c = true)) chunks ->
  In chunk (clean_chunks unicode_isalnum chunks) ->
  blank chunk = false.
Proof. apply clean_chunks_keep_content. Qed.

Lemma chunk_text_allowed (text : str) (chunk_size chunk_overlap : Z) :
  (0 < chunk_size)%Z -> (0 <= chunk_overlap <= chunk_size)%Z ->
  Forall (fun c => allowed unicode_isalnum c = true) text ->
  exists chunks,
    chunk_text unicode_isalnum text chunk_size chunk_overlap = Ok chunks
    /\ Forall (fun chunk => blank chunk = false) chunks.
Proof.
  intros Hcs Hco Ha. rewrite chunk_text_Ok by assumption.
  eexists. split; [reflexivity|]. apply Forall_forall. intros chunk Hc.
  eapply clean_chunks_keep_content; [|exact Hc].
  now apply SplitterExtras._split_text_from_chars.
Qed.

(** X12: for valid parameters and a text with only characters of the
    allow-list, [chunk_text] returns, and no chunk is empty or blank. *)
Theorem chunk_text_of_clean_text (text : str) (chunk_size chunk_overlap : Z) :
  (0 < chunk_size)%Z -> (0 <= chunk_overlap <= chunk_size)%Z ->
  Forall (fun c => allowed unicode_isalnum c = true) text ->
  exists chunks,
    chunk_text unicode_isalnum text chunk_size chunk_overlap = Ok chunks
    /\ Forall (fun chunk => blank chunk = false) chunks.
Proof. apply chunk_text_allowed. Qed.

Lemma chunk_text_blank (text : str) (chunk_size chunk_overlap : Z) :
  (0 < chunk_size)%Z -> (0 <= chunk_overlap <= chunk_size)%Z ->
  blank text = true ->
  chunk_text unicode_isalnum text chunk_size chunk_overlap = Ok [].
Proof.
  intros Hcs Hco Hb. rewrite chunk_text_Ok by assumption. f_equal.
  unfold clean_chunks.
  assert (Hraw : Forall (Forall (fun c => isspace c = true))
                   (RecursiveCharacterTextSplitter._split_text_from chunk_size
                      chunk_overlap [LF; LF] [[LF]; [SP]; []] text)).
  { apply SplitterExtras._split_text_from_chars.
    apply Forall_forall. unfold blank in Hb. now rewrite forallb_forall in Hb. }
  induction Hraw as [|raw raws Hr _ IH]; simpl; [reflexivity|].
  assert (B : blank raw = true).
  { unfold blank. apply forallb_forall. now rewrite Forall_forall in Hr. }
  now rewrite (strip_blank raw B).
Qed.

(** X13: for valid parameters, a text of whitespace only (the empty text
    too) gives no chunk at all. *)
Theorem chunk_text_of_blank (text : str) (chunk_size chunk_overlap : Z) :
  (0 < chunk_size)%Z -> (0 <= chunk_overlap <= chunk_size)%Z ->
  blank text = true ->
  chunk_text unicode_isalnum text chunk_size chunk_overlap = Ok [].
Proof. apply chunk_text_blank. Qed.

(** X14: [chunk_text] invents no character: a character of a chunk is a
    character of the text, or the plain space that stands for a run of
    whitespace. *)
Theorem chunk_text_characters (text : str) (chunk_size chunk_overlap : Z)
    (chunks : list str) (chunk : str) (c : char) :
  chunk_text unicode_isalnum text chunk_size chunk_overlap = Ok chunks ->
  In chunk chunks -> In c chunk ->
  In c text \/ c = SP.
Proof.
  unfold chunk_text, RecursiveCharacterTextSplitter.split_text.
  destruct (RecursiveCharacterTextSplitter.valid_parameters _ _); [|discriminate].
  simpl. intros [= <-] Hchunk Hc.
  unfold clean_chunks in Hchunk. apply in_map_iff in Hchunk.
  destruct Hchunk as (raw & <- & Hraw). apply filter_In in Hraw.
  destruct Hraw as [Hraw _].
  apply TextProcessorFacts.clean_text_In in Hc. destruct Hc as [Hc _].
  unfold collapse_whitespace, re_sub in Hc. apply re_sub_runs_In in Hc.
  destruct Hc as [[Hc _]|[<-|[]]]; [left | now right].
  pose proof (@SplitterExtras._split_text_from_chars (fun x => In x text)
                chunk_size chunk_overlap [[LF]; [SP]; []] [LF; LF] text) as H.
  rewrite !Forall_forall in H. specialize (H (fun x Hx => Hx) raw Hraw).
  rewrite Forall_forall in H. now apply H.
Qed.

End Chunker.

Lemma clean_chunks_not_blank_witness :
  Forall (Forall (fun c => allowed no_unicode_alnum c = true)) [py "a b"; [SP]]
  /\ In (py "a b") (clean_chunks no_unicode_alnum [py "a b"; [SP]])
  /\ blank (py "a b") = false.
Proof.
  assert (Ha : Forall (Forall (fun c => allowed no_unicode_alnum c = true))
                 [py "a b"; [SP]]) by (repeat constructor).
  assert (Hin : In (py "a b") (clean_chunks no_unicode_alnum [py "a b"; [SP]]))
    by (simpl; auto).
  split; [exact Ha|]. split; [exact Hin|].
  exact (@clean_chunks_not_blank no_unicode_alnum _ _ Ha Hin).
Defined.

Lemma chunk_text_of_clean_text_witness :
  (0 < 4)%Z /\ (0 <= 1 <= 4)%Z
  /\ Forall (fun c => allowed no_unicode_alnum c = true) (py "ab cd  ef")
  /\ exists chunks,
       chunk_text no_unicode_alnum (py "ab cd  ef") 4 1 = Ok chunks
       /\ Forall (fun chunk => blank chunk = false) chunks.
Proof.
  assert (Ha : Forall (fun c => allowed no_unicode_alnum c = true) (py "ab cd  ef"))
    by (repeat constructor).
  split; [lia|]. split; [lia|]. split; [exact Ha|].
  apply (@chunk_text_of_clean_text no_unicode_alnum (py "ab cd  ef") 4 1); [lia | lia | exact Ha].
Defined.

Lemma chunk_text_of_blank_witness :
  (0 < 4)%Z /\ (0 <= 1 <= 4)%Z /\ blank [SP; LF; LF; SP; SP; 9%N] = true
  /\ chunk_text no_unicode_alnum [SP; LF; LF; SP; SP; 9%N] 4 1 = Ok [].
Proof.
  split; [lia|]. split; [lia|]. split; [reflexivity|].
  apply (@chunk_text_of_blank no_unicode_alnum [SP; LF; LF; SP; SP; 9%N] 4 1);
    [lia | lia | reflexivity].
Defined.

Lemma chunk_text_characters_witness :
  chunk_text no_unicode_alnum [97%N; 9%N; 98%N] 10 2 = Ok [py "a b"]
  /\ (In SP [97%N; 9%N; 98%N] \/ SP = SP).
Proof.
  split; [reflexivity|].
  apply (@chunk_text_characters no_unicode_alnum [97%N; 9%N; 98%N] 10 2
           [py "a b"] (py "a b") SP); [reflexivity | simpl; auto | simpl; auto].
Defined.

End ChunkerExtras.

(** ** More on ingestion and retrieval *)

Module RetrievalExtras.
Import RetrievalService.

(** X15: [sanitize] keeps the keys and their order, leaves no list among the
    values, leaves metadata without lists as it is, and changes nothing
    when applied again. *)
Theorem sanitize_scalars (md : metadata) :
  map fst (sanitize md) = map fst md
  /\ Forall (fun kv => scalar_value (snd kv) = true) (sanitize md)
  /\ (Forall (fun kv => scalar_value (snd kv) = true) md -> sanitize md = md)
  /\ sanitize (sanitize md) = sanitize md.
Proof.
  unfold sanitize. repeat split.
  - rewrite map_map. reflexivity.
  - apply Forall_forall. intros kv H. apply in_map_iff in H.
    destruct H as ([k v] & <- & _). simpl. now destruct v.
  - intros H. induction H as [|[k v] md Hv _ IH]; simpl; [reflexivity|].
    rewrite IH. simpl in Hv. now destruct v.
  - rewrite map_map. apply map_ext. intros [k v]. simpl. now destruct v.
Qed.

Section WithCollaborators.

Variable float : Type.
Variable fone : float.
Variable fsub : float -> float -> float.
Variable fle : float -> float -> bool.
Variable embeddings_create : list str -> result (list (embedding float)).
Variable collection : Type.
Variable collection_add :
  collection -> list str -> list (embedding float) -> list metadata -> list str ->
  result unit * collection.
Variable collection_query :
  collection -> embedding float -> Z -> result (query_result float).
Variable rng : Type.
Variable uuid4 : rng -> str * rng.

Lemma fresh_ids_length (A : Type) (chunks : list A) (g : rng) :
  length (fst (fresh_ids uuid4 chunks g)) = length chunks.
Proof.
  revert g; induction chunks as [|c chunks IH]; intros g; simpl; [reflexivity|].
  destruct (uuid4 g) as [id g1]. specialize (IH g1).
  destruct (fresh_ids uuid4 chunks g1) as [ids g2]. simpl in *. now rewrite IH.
Qed.

(** X16: when [add_documents] succeeds it returns one identifier per chunk,
    and the one write it issued handed the index the chunks, the embeddings
    of the provider, the sanitized metadata and these identifiers; the
    collection is the one the index returned. *)
Theorem add_documents_success (w w' : world collection rng) (chunks : list str)
    (metadata_list : list metadata) (ids : list str) :
  add_documents embeddings_create collection_add uuid4 w chunks metadata_list
  = (Ok ids, w') ->
  length ids = length chunks
  /\ events w' = events w ++ [EmbeddingsCreate chunks; CollectionAdd ids]
  /\ exists embeddings,
       embeddings_create chunks = Ok embeddings
       /\ collection_add (the_collection w) chunks embeddings
            (map sanitize metadata_list) ids
          = (Ok tt, the_collection w').
Proof.
  unfold add_documents, generate_embeddings. simpl.
  destruct (embeddings_create chunks) as [embeddings|msg]; simpl; [|discriminate].
  pose proof (fresh_ids_length chunks (the_rng w)) as Hlen.
  destruct (fresh_ids uuid4 chunks (the_rng w)) as [ids' g]. simpl in Hlen.
  destruct (collection_add (the_collection w) chunks embeddings
              (map sanitize metadata_list) ids') as [added c] eqn:Eadd.
  destruct added as [[]|msg]; [|discriminate].
  intros [= <- <-]. simpl. repeat split.
  - exact Hlen.
  - now rewrite <- app_assoc.
  - exists embeddings. split; [reflexivity | exact Eadd].
Qed.

(** X17: every match that [retrieve_documents] returns reaches the
    threshold, and there are no more matches than documents in the answer
    of the index. *)
Theorem retrieve_documents_clears (settings : Settings float)
    (w w' : world collection rng) (query : str) (k : option Z)
    (docs : list (RetrievedDocument float)) :
  retrieve_documents fone fsub fle embeddings_create collection_query settings w query k
  = (Ok docs, w') ->
  Forall (fun m => fle (similarity_threshold settings) (similarity_score m) = true) docs
  /\ exists query_embedding n_results results,
       collection_query (the_collection w) query_embedding n_results = Ok results
       /\ (length docs <= length (hd [] (documents results)))%nat.
Proof.
  intros H. apply RetrievalFacts.retrieve_documents_Ok in H.
  destruct H as (qe & n & results & Hq & ->). split.
  - apply Forall_forall. intros m Hm. apply filter_In in Hm. exact (proj2 Hm).
  - exists qe, n, results. split; [exact Hq|].
    etransitivity; [apply filter_length_le|]. rewrite length_map.
    unfold hits_of. generalize (hd [] (documents results)) (hd [] (metadatas results))
      (hd [] (distances results)).
    induction l as [|d ds IH]; intros [|m ms] [|x xs]; simpl; try lia.
    specialize (IH ms xs). lia.
Qed.

(** X18: [retrieve_documents] calls the embedding provider once, on the
    query alone, then queries the index at most once, and issues no write;
    it leaves the collection and the source of identifiers as they were.
    When the provider fails, it raises with the provider's message and the
    index is not queried; when the query of the index fails, it raises with
    that message. *)
Theorem retrieve_documents_calls (settings : Settings float)
    (w : world collection rng) (query : str) (k : option Z) :
  let outcome :=
    retrieve_documents fone fsub fle embeddings_create collection_query settings w query k in
  let n_results := match k with None => retrieval_k settings | Some k => k end in
  (events (snd outcome) = events w ++ [EmbeddingsCreate [query]]
   \/ events (snd outcome)
      = events w ++ [EmbeddingsCreate [query]; CollectionQuery n_results])
  /\ the_collection (snd outcome) = the_collection w
  /\ the_rng (snd outcome) = the_rng w
  /\ (forall e, embeddings_create [query] = Raise e ->
        fst outcome = Raise (retrieve_failed ("Failed to generate embeddings: " ++ e))
        /\ events (snd outcome) = events w ++ [EmbeddingsCreate [query]])
  /\ (forall query_embedding rest e,
        embeddings_create [query] = Ok (query_embedding :: rest) ->
        collection_query (the_collection w) query_embedding n_results = Raise e ->
        fst outcome = Raise (retrieve_failed e)).
Proof.
  unfold retrieve_documents, generate_embedding, generate_embeddings. simpl.
  destruct (embeddings_create [query]) as [[|e es]|msg]; simpl.
  - split; [now left|]. repeat split; intros; discriminate.
  - destruct (collection_query (the_collection w) e _) as [results|msg] eqn:Eq; simpl.
    + destruct (convert fone fsub fle settings results); simpl;
        (split; [right; now rewrite <- app_assoc|]);
        (split; [reflexivity|]); (split; [reflexivity|]);
        (split; [intros; discriminate|]);
        intros qe rest e0 [= <- <-]; congruence.
    + split; [right; now rewrite <- app_assoc|].
      split; [reflexivity|]. split; [reflexivity|].
      split; [intros; discriminate|].
      intros qe rest e0 [= <- <-]. congruence.
  - split; [now left|]. split; [reflexivity|]. split; [reflexivity|].
    split; [|intros; discriminate].
    intros e0 [= <-]. split; reflexivity.
Qed.

(** X19: when the index answers with no document (an empty collection),
    [retrieve_documents] returns the empty list and does not raise. *)
Theorem retrieve_documents_no_hits (settings : Settings float)
    (w : world collection rng) (query : str) (k : option Z)
    (query_embedding : embedding float) (rest : list (embedding float))
    (results : query_result float) :
  embeddings_create [query] = Ok (query_embedding :: rest) ->
  collection_query (the_collection w) query_embedding
    (match k with None => retrieval_k settings | Some k => k end) = Ok results ->
  hd [] (documents results) = [] ->
  fst (retrieve_documents fone fsub fle embeddings_create collection_query
         settings w query k) = Ok [].
Proof.
  intros He Hq Hd.
  unfold retrieve_documents, generate_embedding, generate_embeddings. simpl.
  rewrite He. simpl. rewrite Hq. unfold convert.
  destruct (documents results) as [|[|d ds] dss]; simpl in *;
    [reflexivity | reflexivity | discriminate].
Qed.

End WithCollaborators.

Lemma sanitize_scalars_witness :
  Forall (fun kv => scalar_value (snd kv) = true) [(py "filename", MStr (py "a.txt"))]
  /\ sanitize [(py "filename", MStr (py "a.txt"))] = [(py "filename", MStr (py "a.txt"))].
Proof.
  assert (H : Forall (fun kv => scalar_value (snd kv) = true)
                [(py "filename", MStr (py "a.txt"))]) by (repeat constructor).
  split; [exact H|].
  exact (proj1 (proj2 (proj2 (sanitize_scalars [(py "filename", MStr (py "a.txt"))]))) H).
Defined.

Lemma add_documents_success_witness :
  exists ids w',
    add_documents Demo.embeddings_create Demo.collection_add Demo.uuid4 Demo.start
      [py "one"; py "two"] [[]; []] = (Ok ids, w')
    /\ length ids = 2%nat.
Proof.
  eexists. eexists. split; [reflexivity|].
  exact (proj1 (@add_documents_success Demo.float Demo.embeddings_create
           Demo.collection Demo.collection_add Demo.rng Demo.uuid4 Demo.start _
           [py "one"; py "two"] [[]; []] _ eq_refl)).
Defined.

Lemma retrieve_documents_clears_witness :
  exists docs w',
    retrieve_documents Demo.fone Demo.fsub Demo.fle Demo.embeddings_create
      Demo.collection_query (Demo.settings (7 # 10)) Demo.start (py "question") None
    = (Ok docs, w')
    /\ Forall (fun m => Demo.fle (7 # 10) (similarity_score m) = true) docs.
Proof.
  eexists. eexists. split; [reflexivity|].
  exact (proj1 (@retrieve_documents_clears Demo.float Demo.fone Demo.fsub Demo.fle
           Demo.embeddings_create Demo.collection Demo.collection_query Demo.rng
           (Demo.settings (7 # 10)) Demo.start _ (py "question") None _ eq_refl)).
Defined.

Lemma retrieve_documents_calls_witness :
  Demo.failing_embeddings_create [py "question"] = Raise "rate limit"
  /\ events (snd (retrieve_documents Demo.fone Demo.fsub Demo.fle
                    Demo.failing_embeddings_create Demo.collection_query
                    (Demo.settings (7 # 10)) Demo.start (py "question") None))
     = [EmbeddingsCreate [py "question"]].
Proof.
  split; [reflexivity|].
  exact (proj2 (proj1 (proj2 (proj2 (proj2 (@retrieve_documents_calls Demo.float
           Demo.fone Demo.fsub Demo.fle Demo.failing_embeddings_create Demo.collection
           Demo.collection_query Demo.rng (Demo.settings (7 # 10)) Demo.start
           (py "question") None)))) "rate limit"%string eq_refl)).
Defined.

Lemma retrieve_documents_no_hits_witness :
  fst (retrieve_documents Demo.fone Demo.fsub Demo.fle Demo.embeddings_create
         Demo.collection_query (Demo.settings (7 # 10))
         (World ([] : Demo.collection) O []) (py "question") None) = Ok [].
Proof.
  exact (@retrieve_documents_no_hits Demo.float Demo.fone Demo.fsub Demo.fle
           Demo.embeddings_create Demo.collection Demo.collection_query Demo.rng
           (Demo.settings (7 # 10)) (World ([] : Demo.collection) O [])
           (py "question") None _ _ _ eq_refl eq_refl eq_refl).
Defined.

End RetrievalExtras.

(** ** The answer synthesizer *)

Lemma substring_refl (a : str) : substring a a.
Proof. exists [], []. now rewrite app_nil_r. Qed.

Lemma substring_trans (a b c : str) : substring a b -> substring b c -> substring a c.
Proof.
  intros (p1 & q1 & ->) (p2 & q2 & ->). exists (p2 ++ p1), (q1 ++ q2).
  now rewrite <- !app_assoc.
Qed.

Lemma substring_app_l (a b c : str) : substring a b -> substring a (b ++ c).
Proof. intros (p & q & ->). exists p, (q ++ c). now rewrite <- !app_assoc. Qed.

Lemma substring_app_r (a b c : str) : substring a b -> substring a (c ++ b).
Proof. intros (p & q & ->). exists (c ++ p), q. now rewrite <- !app_assoc. Qed.

Lemma join_In_substring (separator : str) (parts : list str) (part : str) :
  In part parts -> substring part (RecursiveCharacterTextSplitter.join separator parts).
Proof.
  induction parts as [|d ds IH]; [intros []|].
  intros H. cbn [RecursiveCharacterTextSplitter.join].
  destruct ds as [|d' ds'].
  - destruct H as [->|[]]. apply substring_refl.
  - destruct H as [->|H].
    + apply substring_app_l, substring_refl.
    + apply substring_app_r, substring_app_r, IH, H.
Qed.

Module GenerationExtras.
Import GenerationService.

Section WithCollaborators.

Variable float : Type.
Variable repr_list : list str -> str.
Variable chat_completions_create : list message -> result (list (option str)).

Lemma context_parts_nth (docs : list (RetrievalService.RetrievedDocument float))
    (start : Z) (i : nat) (doc : RetrievalService.RetrievedDocument float) :
  nth_error docs i = Some doc ->
  In (context_part repr_list (start + Z.of_nat i) doc) (context_parts repr_list start docs).
Proof.
  revert start i; induction docs as [|d docs IH]; intros start [|i]; simpl;
    try discriminate.
  - intros [= ->]. left. f_equal. lia.
  - intros H. right. replace (start + Z.pos (Pos.of_succ_nat i))%Z
      with ((start + 1) + Z.of_nat i)%Z by lia.
    now apply IH.
Qed.

Lemma content_in_part (i : Z) (doc : RetrievalService.RetrievedDocument float) :
  substring (RetrievalService.content doc) (context_part repr_list i doc).
Proof.
  unfold context_part.
  do 6 apply substring_app_r. apply substring_app_l, substring_refl.
Qed.

Lemma part_in_context (docs : list (RetrievalService.RetrievedDocument float))
    (i : nat) (doc : RetrievalService.RetrievedDocument float) :
  nth_error docs i = Some doc ->
  substring (context_part repr_list (1 + Z.of_nat i) doc) (_prepare_context repr_list docs).
Proof.
  intros H. unfold _prepare_context.
  destruct docs as [|d docs]; [now destruct i|].
  apply join_In_substring. now apply context_parts_nth.
Qed.

(** X20: in the context prepared for the model, every retrieved document
    stands under its own header: the document at position [i] of the list
    appears as [Source i+1 (its file name):], a line break, its content and
    a line break.  For no document at all the context is the fixed
    sentence. *)
Theorem _prepare_context_lists_sources
    (docs : list (RetrievalService.RetrievedDocument float)) :
  (forall i doc,
      nth_error docs i = Some doc ->
      substring
        (py "Source " ++ str_of_int (1 + Z.of_nat i) ++ py " ("
         ++ source_info repr_list doc ++ py "):" ++ [LF]
         ++ RetrievalService.content doc ++ [LF])
        (_prepare_context repr_list docs))
  /\ (docs = [] -> _prepare_context repr_list docs = py "No relevant documents found.").
Proof.
  split.
  - intros i doc H. exact (part_in_context docs i H).
  - now intros ->.
Qed.

Lemma context_in_prompt (query context : str) :
  substring context (_create_prompt query context)
  /\ substring query (_create_prompt query context).
Proof.
  unfold _create_prompt. split.
  - do 2 apply substring_app_r. apply substring_app_l, substring_refl.
  - do 5 apply substring_app_r. apply substring_app_l, substring_refl.
Qed.

(** X21: [generate_response] calls the model exactly once, with the system
    message and one user message; the user message holds the question and
    the content of every retrieved document; an answer that is returned is
    the reply of the model stripped, so it neither starts nor ends with
    whitespace; a failure of the model is raised with its message. *)
Theorem generate_response_grounded (calls : list (list message)) (query : str)
    (docs : list (RetrievalService.RetrievedDocument float)) :
  let outcome := generate_response repr_list chat_completions_create calls query docs in
  exists prompt,
    snd outcome = calls ++ [[system_message; Message (py "user") prompt]]
    /\ substring query prompt
    /\ (forall doc, In doc docs -> substring (RetrievalService.content doc) prompt)
    /\ (forall answer, fst outcome = Ok answer ->
          strip answer = answer
          /\ exists reply rest,
               chat_completions_create [system_message; Message (py "user") prompt]
               = Ok (Some reply :: rest)
               /\ answer = strip reply)
    /\ (forall e,
          chat_completions_create [system_message; Message (py "user") prompt] = Raise e ->
          fst outcome = Raise (generation_failed e)).
Proof.
  cbv zeta. unfold generate_response.
  set (prompt := _create_prompt query (_prepare_context repr_list docs)).
  set (messages := [system_message; Message (py "user") prompt]).
  exists prompt. fold messages. split; [|split; [|split; [|split]]].
  - destruct (chat_completions_create messages) as [[|[c|] cs]|e]; reflexivity.
  - apply context_in_prompt.
  - intros doc Hdoc. apply In_nth_error in Hdoc. destruct Hdoc as [i Hi].
    eapply substring_trans; [apply (content_in_part (1 + Z.of_nat i)) |].
    eapply substring_trans; [apply (part_in_context docs i Hi) |].
    apply context_in_prompt.
  - intros answer.
    destruct (chat_completions_create messages) as [[|[c|] cs]|e];
      cbn [fst]; try discriminate.
    intros [= <-]. split; [apply strip_strip|]. now exists c, cs.
  - intros e He. now rewrite He.
Qed.

End WithCollaborators.

Lemma _prepare_context_lists_sources_witness :
  nth_error [DemoApp.near; DemoApp.far] 1 = Some DemoApp.far
  /\ substring
       (py "Source 2 (Unknown source):" ++ [LF] ++ py "Rome is older." ++ [LF])
       (_prepare_context DemoApp.repr_list [DemoApp.near; DemoApp.far]).
Proof.
  split; [reflexivity|].
  exact (proj1 (@_prepare_context_lists_sources Q DemoApp.repr_list
                  [DemoApp.near; DemoApp.far]) 1%nat DemoApp.far eq_refl).
Defined.

Lemma generate_response_grounded_witness :
  fst (generate_response DemoApp.repr_list DemoApp.chat_completions_create []
         (py "What is the capital?") [DemoApp.near; DemoApp.far])
  = Ok (py "A grounded answer.")
  /\ strip (py "A grounded answer.") = py "A grounded answer.".
Proof.
  split; [reflexivity|].
  destruct (@generate_response_grounded Q DemoApp.repr_list
              DemoApp.chat_completions_create [] (py "What is the capital?")
              [DemoApp.near; DemoApp.far]) as (prompt & _ & _ & _ & H & _).
  exact (proj1 (H (py "A grounded answer.") eq_refl)).
Defined.

End GenerationExtras.

(** ** The document service *)

Module DocumentExtras.
Import DocumentService.

Lemma chunk_text_Ok_valid (unicode_isalnum : char -> bool) (text : str)
    (chunk_size chunk_overlap : Z) (chunks : list str) :
  TextProcessor.chunk_text unicode_isalnum text chunk_size chunk_overlap = Ok chunks ->
  (0 < chunk_size)%Z /\ (0 <= chunk_overlap <= chunk_size)%Z.
Proof.
  unfold TextProcessor.chunk_text, RecursiveCharacterTextSplitter.split_text,
    RecursiveCharacterTextSplitter.valid_parameters.
  destruct (0 <? chunk_size)%Z eqn:E1; [|discriminate].
  destruct (0 <=? chunk_overlap)%Z eqn:E2; [|discriminate].
  destruct (chunk_overlap <=? chunk_size)%Z eqn:E3; [|discriminate].
  intros _. apply Z.ltb_lt in E1. apply Z.leb_le in E2, E3. lia.
Qed.

(** The chunks of a cleaned text: none is blank, none is longer than
    [chunk_size]. *)
Lemma chunks_of_cleaned_text (unicode_isalnum : char -> bool) (text : str)
    (chunk_size chunk_overlap : Z) (chunks : list str) :
  TextProcessor.chunk_text unicode_isalnum
    (TextProcessor.clean_text unicode_isalnum text) chunk_size chunk_overlap
  = Ok chunks ->
  Forall (fun chunk => blank chunk = false /\ (len chunk <= chunk_size)%Z) chunks.
Proof.
  intros H. destruct (chunk_text_Ok_valid _ _ _ _ H) as [Hcs Hco].
  destruct (@ChunkerExtras.chunk_text_allowed unicode_isalnum
              (TextProcessor.clean_text unicode_isalnum text) chunk_size chunk_overlap
              Hcs Hco (NormalizerExtras.clean_text_output_allowed unicode_isalnum text))
    as (chunks' & E & Hb).
  rewrite E in H. injection H as ->.
  rewrite ChunkerExtras.chunk_text_Ok in E by assumption. injection E as E.
  assert (Hlen : Forall (bounded chunk_size) chunks).
  { rewrite <- E. apply ChunkerFacts.clean_chunks_bounded.
    now apply (@SplitterFacts._split_text_from_bounded chunk_size chunk_overlap Hcs
                 [[LF]; [SP]; []] [LF; LF] [LF; LF]). }
  rewrite Forall_forall in *. intros chunk Hc. split; [now apply Hb | now apply Hlen].
Qed.

Lemma no_solid_blank (unicode_isalnum : char -> bool) (s : str) :
  Forall (fun c => TextProcessor.allowed unicode_isalnum c = true) s ->
  filter (solid unicode_isalnum) s = [] ->
  blank s = true.
Proof.
  induction 1 as [|c s Hc _ IH]; simpl; [reflexivity|].
  unfold solid at 1. rewrite Hc. simpl.
  destruct (isspace c); simpl; [exact IH | discriminate].
Qed.

Section WithCollaborators.

Variable unicode_isalnum : char -> bool.
Variable unicode_lower : str -> str.
Variable float : Type.
Variable embeddings_create : list str -> result (list (RetrievalService.embedding float)).
Variable collection : Type.
Variable collection_add :
  collection -> list str -> list (RetrievalService.embedding float) -> list metadata ->
  list str -> result unit * collection.
Variable rng : Type.
Variable uuid4 : rng -> str * rng.
Variable pdf_pages : bytes -> result (list str).
Variable docx_paragraphs : bytes -> result (list str).
Variable decode_utf8 : bytes -> result str.
Variable settings : DocumentSettings.

(** What [add_documents] does to the log of calls. *)
Lemma add_documents_log (w : RetrievalService.world collection rng) (chunks : list str)
    (metadata_list : list metadata) :
  let outcome :=
    RetrievalService.add_documents embeddings_create collection_add uuid4 w chunks
      metadata_list in
  (RetrievalService.events (snd outcome)
   = RetrievalService.events w ++ [RetrievalService.EmbeddingsCreate chunks]
   /\ exists e, fst outcome = Raise e)
  \/ exists ids,
       RetrievalService.events (snd outcome)
       = RetrievalService.events w
         ++ [RetrievalService.EmbeddingsCreate chunks; RetrievalService.CollectionAdd ids]
       /\ length ids = length chunks
       /\ (fst outcome = Ok ids \/ exists e, fst outcome = Raise e).
Proof.
  cbv zeta. unfold RetrievalService.add_documents, RetrievalService.generate_embeddings.
  cbn [RetrievalService.record_event RetrievalService.the_collection
       RetrievalService.the_rng RetrievalService.events].
  destruct (embeddings_create chunks) as [embeddings|msg].
  - right.
    match goal with
    | |- context [@RetrievalService.fresh_ids ?r ?u ?A ?c ?g0] =>
        pose proof (@RetrievalExtras.fresh_ids_length r u A c g0) as Hlen;
        destruct (@RetrievalService.fresh_ids r u A c g0) as [ids g]
    end.
    match goal with
    | |- context [collection_add ?a ?b ?c ?d ?e] =>
        destruct (collection_add a b c d e) as [added c']
    end.
    exists ids. cbn [fst snd] in *. split; [|split; [exact Hlen|]].
    + destruct added; cbn; now rewrite <- app_assoc.
    + destruct added as [[]|e]; cbn; [now left | right; eauto].
  - left. cbn. split; [reflexivity | eauto].
Qed.

(** X22: whatever the file, [process_uploaded_file] either fails and leaves
    the services untouched, or makes one embedding call on a batch of
    chunks that is not empty, none of them blank and none longer than
    [chunk_size], followed by at most one write to the index. *)
Theorem process_uploaded_file_calls (w : RetrievalService.world collection rng)
    (now : str) (file_content : bytes) (filename content_type : str) :
  let outcome :=
    process_uploaded_file unicode_isalnum unicode_lower embeddings_create collection_add
      uuid4 pdf_pages docx_paragraphs decode_utf8 settings w now file_content filename
      content_type in
  (snd outcome = w /\ exists e, fst outcome = Raise e)
  \/ exists chunks rest,
       RetrievalService.events (snd outcome)
       = RetrievalService.events w ++ RetrievalService.EmbeddingsCreate chunks :: rest
       /\ chunks <> []
       /\ Forall (fun chunk => blank chunk = false
                               /\ (len chunk <= chunk_size settings)%Z) chunks
       /\ (rest = [] \/ exists ids, rest = [RetrievalService.CollectionAdd ids]).
Proof.
  cbv zeta. unfold process_uploaded_file.
  destruct (Z.of_nat (length file_content) >? max_file_size settings)%Z;
    [left; cbn; eauto|].
  destruct (_extract_text unicode_lower pdf_pages docx_paragraphs decode_utf8
              file_content filename content_type) as [text|e]; [|left; cbn; eauto].
  destruct (truthy (strip text)); [|left; cbn; eauto].
  unfold _process_document.
  destruct (TextProcessor.chunk_text unicode_isalnum
              (TextProcessor.clean_text unicode_isalnum text)
              (chunk_size settings) (chunk_overlap settings)) as [chunks|e] eqn:Ec;
    [|left; cbn; eauto].
  destruct chunks as [|chunk chunks]; [left; cbn; eauto|].
  apply chunks_of_cleaned_text in Ec.
  match goal with
  | |- context [RetrievalService.add_documents _ _ _ w ?cs ?ms] =>
      destruct (add_documents_log w cs ms) as [[Hev (e & He)]|(ids & Hev & Hlen & Hr)];
      destruct (RetrievalService.add_documents embeddings_create collection_add uuid4
                  w cs ms) as [[ids'|e'] w']
  end; cbn [fst snd] in *; right.
  - discriminate.
  - exists (chunk :: chunks), []. repeat split; [exact Hev | discriminate | exact Ec | now left].
  - exists (chunk :: chunks), [RetrievalService.CollectionAdd ids].
    repeat split; [exact Hev | discriminate | exact Ec | right; eauto].
  - exists (chunk :: chunks), [RetrievalService.CollectionAdd ids].
    repeat split; [exact Hev | discriminate | exact Ec | right; eauto].
Qed.

(** X23: a file larger than [max_file_size], a file whose text cannot be
    extracted, and a file whose text has no character that survives
    cleaning (a blank text, or one made of characters outside the
    allow-list and whitespace) are all refused with an error that starts
    with [Failed to process file:], and the services are left untouched:
    nothing is embedded, nothing is written. *)
Theorem process_uploaded_file_rejects (w : RetrievalService.world collection rng)
    (now : str) (file_content : bytes) (filename content_type : str) :
  (Z.of_nat (length file_content) > max_file_size settings)%Z
  \/ (exists e,
        _extract_text unicode_lower pdf_pages docx_paragraphs decode_utf8
          file_content filename content_type = Raise e)
  \/ (exists text,
        _extract_text unicode_lower pdf_pages docx_paragraphs decode_utf8
          file_content filename content_type = Ok text
        /\ filter (solid unicode_isalnum) text = []) ->
  exists e,
    process_uploaded_file unicode_isalnum unicode_lower embeddings_create collection_add
      uuid4 pdf_pages docx_paragraphs decode_utf8 settings w now file_content filename
      content_type
    = (Raise (processing_failed e), w).
Proof.
  intros H. unfold process_uploaded_file.
  destruct (Z.of_nat (length file_content) >? max_file_size settings)%Z eqn:Esize;
    [eauto|].
  destruct H as [H|[(e & ->)|(text & -> & Hsolid)]]; [lia | eauto |].
  destruct (truthy (strip text)); [|eauto].
  unfold _process_document.
  assert (Hb : blank (TextProcessor.clean_text unicode_isalnum text) = true).
  { apply (@no_solid_blank unicode_isalnum).
    - apply NormalizerExtras.clean_text_output_allowed.
    - now rewrite NormalizerExtras.filter_solid_clean_text. }
  destruct (TextProcessor.chunk_text unicode_isalnum
              (TextProcessor.clean_text unicode_isalnum text)
              (chunk_size settings) (chunk_overlap settings)) as [chunks|e] eqn:Ec;
    [|eauto].
  destruct (chunk_text_Ok_valid _ _ _ _ Ec) as [Hcs Hco].
  rewrite (ChunkerExtras.chunk_text_blank unicode_isalnum _ Hcs Hco Hb) in Ec.
  injection Ec as <-. eauto.
Qed.

Lemma process_uploaded_file_Ok (w w' : RetrievalService.world collection rng)
    (now : str) (file_content : bytes) (filename content_type : str)
    (result : ProcessResult) :
  process_uploaded_file unicode_isalnum unicode_lower embeddings_create collection_add
    uuid4 pdf_pages docx_paragraphs decode_utf8 settings w now file_content filename
    content_type
  = (Ok result, w') ->
  (Z.of_nat (length file_content) <= max_file_size settings)%Z
  /\ result_filename result = filename
  /\ file_type result = content_type
  /\ file_size result = Z.of_nat (length file_content)
  /\ upload_time result = now
  /\ (0 < chunk_count result)%Z
  /\ chunk_count result = Z.of_nat (length (chunk_ids result))
  /\ exists chunks,
       length chunks = length (chunk_ids result)
       /\ RetrievalService.events w'
          = RetrievalService.events w
            ++ [RetrievalService.EmbeddingsCreate chunks;
                RetrievalService.CollectionAdd (chunk_ids result)].
Proof.
  unfold process_uploaded_file.
  destruct (Z.of_nat (length file_content) >? max_file_size settings)%Z eqn:Esize;
    [discriminate|].
  destruct (_extract_text unicode_lower pdf_pages docx_paragraphs decode_utf8
              file_content filename content_type) as [text|e]; [|discriminate].
  destruct (truthy (strip text)); [|discriminate].
  unfold _process_document.
  destruct (TextProcessor.chunk_text unicode_isalnum
              (TextProcessor.clean_text unicode_isalnum text)
              (chunk_size settings) (chunk_overlap settings)) as [chunks|e];
    [|discriminate].
  destruct chunks as [|chunk chunks]; [discriminate|].
  match goal with
  | |- context [RetrievalService.add_documents _ _ _ w ?cs ?ms] =>
      destruct (add_documents_log w cs ms) as [[Hev (e & He)]|(ids & Hev & Hlen & Hr)];
      destruct (RetrievalService.add_documents embeddings_create collection_add uuid4
                  w cs ms) as [[ids'|e'] w'']
  end; cbn [fst snd] in *; try discriminate.
  intros [= <- <-]. cbn.
  assert (Hids : ids' = ids) by (destruct Hr as [[= ->]|(e & [=])]; reflexivity).
  subst ids'. rewrite Z.gtb_ltb in Esize. apply Z.ltb_ge in Esize.
  simpl in Hlen. rewrite Hlen.
  do 7 (split; [first [reflexivity | lia]|]).
  exists (chunk :: chunks). split; [reflexivity | exact Hev].
Qed.

(** X24: when [process_uploaded_file] succeeds, the file was within
    [max_file_size]; the result echoes the file name, the content type and
    the size in bytes; [chunk_count] is positive and is the number of
    identifiers returned; and the services saw one embedding call on that
    many chunks followed by one write under these identifiers. *)
Theorem process_uploaded_file_success (w w' : RetrievalService.world collection rng)
    (now : str) (file_content : bytes) (filename content_type : str)
    (result : ProcessResult) :
  process_uploaded_file unicode_isalnum unicode_lower embeddings_create collection_add
    uuid4 pdf_pages docx_paragraphs decode_utf8 settings w now file_content filename
    content_type
  = (Ok result, w') ->
  (Z.of_nat (length file_content) <= max_file_size settings)%Z
  /\ result_filename result = filename
  /\ file_type result = content_type
  /\ file_size result = Z.of_nat (length file_content)
  /\ upload_time result = now
  /\ (0 < chunk_count result)%Z
  /\ chunk_count result = Z.of_nat (length (chunk_ids result))
  /\ exists chunks,
       length chunks = length (chunk_ids result)
       /\ RetrievalService.events w'
          = RetrievalService.events w
            ++ [RetrievalService.EmbeddingsCreate chunks;
                RetrievalService.CollectionAdd (chunk_ids result)].
Proof. apply process_uploaded_file_Ok. Qed.

Lemma blank_lines_of (parts : list str) :
  Forall (fun part => blank part = true) parts -> blank (lines_of parts) = true.
Proof.
  unfold lines_of, blank. induction 1 as [|part parts Hpart _ IH]; [reflexivity|].
  cbn [flat_map]. rewrite !forallb_app, IH. unfold blank in Hpart. now rewrite Hpart.
Qed.

(** X30: a file that is read as a PDF, because of its content type or
    because its name ends with [.pdf] in any letter case, and whose pages
    hold no text (a scan without a text layer) is refused with [No text
    could be extracted from the file]; nothing is embedded or written.  The
    other readers are not consulted. *)
Theorem process_uploaded_file_scanned_pdf (w : RetrievalService.world collection rng)
    (now : str) (file_content : bytes) (filename content_type : str)
    (pages : list str) :
  (Z.of_nat (length file_content) <= max_file_size settings)%Z ->
  content_type = pdf_type \/ has_extension unicode_lower filename ".pdf" = true ->
  pdf_pages file_content = Ok pages ->
  Forall (fun page => blank page = true) pages ->
  process_uploaded_file unicode_isalnum unicode_lower embeddings_create collection_add
    uuid4 pdf_pages docx_paragraphs decode_utf8 settings w now file_content filename
    content_type
  = (Raise (processing_failed "No text could be extracted from the file"), w).
Proof.
  intros Hsize Hpdf Hpages Hblank. unfold process_uploaded_file.
  assert (Esize : (Z.of_nat (length file_content) >? max_file_size settings)%Z = false)
    by (rewrite Z.gtb_ltb; apply Z.ltb_ge; exact Hsize).
  rewrite Esize.
  assert (Et : _extract_text unicode_lower pdf_pages docx_paragraphs decode_utf8
                 file_content filename content_type = Ok (lines_of pages)).
  { unfold _extract_text, _extract_text_from_pdf.
    assert (Ec : (str_eqb content_type pdf_type
                  || has_extension unicode_lower filename ".pdf")%bool = true).
    { destruct Hpdf as [-> | ->]; [now rewrite str_eqb_refl | apply orb_true_r]. }
    rewrite Ec, Hpages. reflexivity. }
  rewrite Et, (strip_blank _ (blank_lines_of Hblank)). reflexivity.
Qed.

End WithCollaborators.

Section Metadata.

Variable unicode_isalnum : char -> bool.
Variable unicode_lower : str -> str.

Lemma metadata_from_nth (base : metadata) (chunks : list str) (start : Z) (i : nat)
    (chunk : str) :
  nth_error chunks i = Some chunk ->
  nth_error (metadata_from unicode_isalnum unicode_lower base start chunks) i
  = Some (chunk_metadata unicode_isalnum unicode_lower base (start + Z.of_nat i) chunk).
Proof.
  revert start i; induction chunks as [|c chunks IH]; intros start [|i]; simpl;
    try discriminate.
  - intros [= ->]. do 2 f_equal. lia.
  - intros H. rewrite (IH (start + 1)%Z i H). do 2 f_equal. lia.
Qed.

Lemma metadata_from_length (base : metadata) (chunks : list str) (start : Z) :
  length (metadata_from unicode_isalnum unicode_lower base start chunks) = length chunks.
Proof.
  revert start; induction chunks as [|c chunks IH]; intros start; simpl;
    [reflexivity | now rewrite IH].
Qed.

(** X25: the metadata list that [_process_document] builds has one entry
    per chunk; the entry of the chunk at position [i] records the file
    name, the number of chunks, [chunk_index = i], the length of the chunk,
    and as keywords at most five words, none twice; once sanitized for the
    index it holds no list. *)
Theorem metadata_from_records (filename content_type now : str) (file_size : Z)
    (chunks : list str) (i : nat) (chunk : str) :
  nth_error chunks i = Some chunk ->
  length (metadata_from unicode_isalnum unicode_lower
            (base_metadata filename content_type file_size now
               (Z.of_nat (length chunks))) 0 chunks)
  = length chunks
  /\ exists md keywords,
       nth_error (metadata_from unicode_isalnum unicode_lower
                    (base_metadata filename content_type file_size now
                       (Z.of_nat (length chunks))) 0 chunks) i = Some md
       /\ GenerationService.metadata_get md (py "filename") = Some (MStr filename)
       /\ GenerationService.metadata_get md (py "total_chunks")
          = Some (MInt (Z.of_nat (length chunks)))
       /\ GenerationService.metadata_get md (py "chunk_index") = Some (MInt (Z.of_nat i))
       /\ GenerationService.metadata_get md (py "chunk_text_length")
          = Some (MInt (len chunk))
       /\ GenerationService.metadata_get md (py "keywords") = Some (MList keywords)
       /\ (length keywords <= 5)%nat
       /\ NoDup keywords
       /\ Forall (fun kv => scalar_value (snd kv) = true) (RetrievalService.sanitize md).
Proof.
  intros H. split; [apply metadata_from_length|].
  eexists. exists (TextProcessor.extract_keywords unicode_isalnum unicode_lower chunk 5).
  split; [apply (metadata_from_nth _ _ 0 _ H)|].
  do 5 (split; [reflexivity|]). split; [|split].
  - unfold TextProcessor.extract_keywords, TextProcessor.slice_to.
    change (0 <=? 5)%Z with true. cbv iota.
    rewrite length_map, length_firstn. change (Z.to_nat 5) with 5%nat. lia.
  - apply KeywordFacts.extract_keywords_NoDup.
  - apply Forall_forall. intros kv Hkv. unfold RetrievalService.sanitize in Hkv.
    apply in_map_iff in Hkv. destruct Hkv as ([k v] & <- & _). simpl. now destruct v.
Qed.

End Metadata.

Lemma process_uploaded_file_rejects_witness :
  exists e,
    process_uploaded_file no_unicode_alnum no_unicode_lower Demo.embeddings_create
      Demo.collection_add Demo.uuid4 DemoApp.pdf_pages DemoApp.docx_paragraphs
      DemoApp.decode_utf8 DemoApp.document_settings Demo.start (py "2024-01-01T00:00:00")
      (DemoApp.ascii_bytes "@@@ ###") (py "notes.txt") text_type
    = (Raise (processing_failed e), Demo.start).
Proof.
  apply (@process_uploaded_file_rejects no_unicode_alnum no_unicode_lower Demo.float
           Demo.embeddings_create Demo.collection Demo.collection_add Demo.rng
           Demo.uuid4 DemoApp.pdf_pages DemoApp.docx_paragraphs DemoApp.decode_utf8
           DemoApp.document_settings Demo.start (py "2024-01-01T00:00:00")
           (DemoApp.ascii_bytes "@@@ ###") (py "notes.txt") text_type).
  right. right. eexists. split; reflexivity.
Defined.

Lemma process_uploaded_file_success_witness :
  exists result w',
    process_uploaded_file no_unicode_alnum no_unicode_lower Demo.embeddings_create
      Demo.collection_add Demo.uuid4 DemoApp.pdf_pages DemoApp.docx_paragraphs
      DemoApp.decode_utf8 DemoApp.document_settings Demo.start (py "2024-01-01T00:00:00")
      (DemoApp.ascii_bytes "Paris is the capital of France.") (py "atlas.txt") text_type
    = (Ok result, w')
    /\ chunk_count result = 1%Z
    /\ chunk_count result = Z.of_nat (length (chunk_ids result)).
Proof.
  eexists. eexists. split; [reflexivity|]. split; [reflexivity|].
  refine (proj1 (proj2 (proj2 (proj2 (proj2 (proj2 (proj2
    (@process_uploaded_file_success no_unicode_alnum no_unicode_lower Demo.float
       Demo.embeddings_create Demo.collection Demo.collection_add Demo.rng Demo.uuid4
       DemoApp.pdf_pages DemoApp.docx_paragraphs DemoApp.decode_utf8
       DemoApp.document_settings Demo.start _ (py "2024-01-01T00:00:00")
       (DemoApp.ascii_bytes "Paris is the capital of France.") (py "atlas.txt")
       text_type _ eq_refl)))))))).
Defined.

Lemma process_uploaded_file_scanned_pdf_witness :
  process_uploaded_file no_unicode_alnum no_unicode_lower Demo.embeddings_create
    Demo.collection_add Demo.uuid4 DemoApp.scanned_pdf_pages DemoApp.docx_paragraphs
    DemoApp.decode_utf8 DemoApp.document_settings Demo.start (py "2024-01-01T00:00:00")
    (DemoApp.ascii_bytes "%PDF-1.4") (py "Scan.PDF") text_type
  = (Raise (processing_failed "No text could be extracted from the file"), Demo.start).
Proof.
  apply (@process_uploaded_file_scanned_pdf no_unicode_alnum no_unicode_lower Demo.float
           Demo.embeddings_create Demo.collection Demo.collection_add Demo.rng
           Demo.uuid4 DemoApp.scanned_pdf_pages DemoApp.docx_paragraphs
           DemoApp.decode_utf8 DemoApp.document_settings Demo.start
           (py "2024-01-01T00:00:00") (DemoApp.ascii_bytes "%PDF-1.4") (py "Scan.PDF")
           text_type [[]; [SP; SP]]).
  - vm_compute. discriminate.
  - right. reflexivity.
  - reflexivity.
  - repeat constructor.
Defined.

Lemma metadata_from_records_witness :
  nth_error [py "alpha beta"; py "gamma"] 1 = Some (py "gamma")
  /\ length (metadata_from no_unicode_alnum no_unicode_lower
               (base_metadata (py "a.txt") text_type 16 (py "now") 2) 0
               [py "alpha beta"; py "gamma"]) = 2%nat.
Proof.
  split; [reflexivity|].
  exact (proj1 (@metadata_from_records no_unicode_alnum no_unicode_lower (py "a.txt")
                  text_type (py "now") 16 [py "alpha beta"; py "gamma"] 1 (py "gamma")
                  eq_refl)).
Defined.

End DocumentExtras.

(** ** The endpoints *)

Module MainExtras.
Import Main.

Section WithCollaborators.

Variable unicode_isalnum : char -> bool.
Variable unicode_lower : str -> str.
Variable float : Type.
Variable fone : float.
Variable fsub : float -> float -> float.
Variable fle : float -> float -> bool.
Variable embeddings_create : list str -> result (list (RetrievalService.embedding float)).
Variable collection : Type.
Variable collection_add :
  collection -> list str -> list (RetrievalService.embedding float) -> list metadata ->
  list str -> result unit * collection.
Variable collection_query :
  collection -> RetrievalService.embedding float -> Z ->
  result (RetrievalService.query_result float).
Variable collection_count : collection -> result Z.
Variable rng : Type.
Variable uuid4 : rng -> str * rng.
Variable pdf_pages : DocumentService.bytes -> result (list str).
Variable docx_paragraphs : DocumentService.bytes -> result (list str).
Variable decode_utf8 : DocumentService.bytes -> result str.
Variable repr_list : list str -> str.
Variable chat_completions_create :
  list GenerationService.message -> result (list (option str)).
Variable document_settings : DocumentService.DocumentSettings.
Variable settings : RetrievalService.Settings float.
Variable collection_name : str.
Variable app_version : str.

Lemma supported_In (content_type : str) :
  existsb (str_eqb content_type) DocumentService.get_supported_formats = true
  <-> In content_type DocumentService.get_supported_formats.
Proof.
  rewrite existsb_exists. split.
  - intros (x & Hx & E). apply str_eqb_eq in E. now subst.
  - intros H. exists content_type. split; [exact H | apply str_eqb_refl].
Qed.

(** X26: [upload_document] answers with status 400 or 500 only.  A missing
    or empty file name, and a content type that is not one of the three
    supported ones (or none), get status 400 and the services are left
    untouched, whatever the extension of the file name; a successful
    answer means the file had a name and a supported content type and gave
    at least one chunk. *)
Theorem upload_document_gate (w : RetrievalService.world collection rng) (now : str)
    (file : UploadFile) :
  let outcome :=
    upload_document unicode_isalnum unicode_lower embeddings_create collection_add uuid4
      pdf_pages docx_paragraphs decode_utf8 document_settings w now file in
  ((upload_filename file = None \/ upload_filename file = Some []) ->
     outcome = (HTTPException 400 "No filename provided", w))
  /\ (forall filename,
        upload_filename file = Some filename -> filename <> [] ->
        (forall content_type,
            upload_content_type file = Some content_type ->
            ~ In content_type DocumentService.get_supported_formats) ->
        outcome = (HTTPException 400 unsupported_detail, w))
  /\ match fst outcome with
     | HTTPException status_code _ => status_code = 400%Z \/ status_code = 500%Z
     | Respond (_, result) =>
         exists filename content_type,
           upload_filename file = Some filename /\ filename <> []
           /\ upload_content_type file = Some content_type
           /\ In content_type DocumentService.get_supported_formats
           /\ (0 < DocumentService.chunk_count result)%Z
     end.
Proof.
  cbv zeta. unfold upload_document. split; [|split].
  - intros [->| ->]; reflexivity.
  - intros filename -> Hne Hct.
    destruct filename as [|c filename]; [congruence|]. cbn [truthy].
    destruct (upload_content_type file) as [ct|]; [|reflexivity].
    destruct (existsb (str_eqb ct) DocumentService.get_supported_formats) eqn:E;
      [|reflexivity].
    apply supported_In in E. now apply Hct in E.
  - destruct (upload_filename file) as [[|c filename]|]; cbn [truthy fst]; auto.
    destruct (upload_content_type file) as [ct|]; cbn [fst]; auto.
    destruct (existsb (str_eqb ct) DocumentService.get_supported_formats) eqn:E;
      cbn [fst]; auto.
    apply supported_In in E.
    match goal with
    | |- context [DocumentService.process_uploaded_file ?a ?b ?c ?d ?e ?f ?g ?h ?i ?j ?k ?l ?m ?n] =>
        destruct (DocumentService.process_uploaded_file a b c d e f g h i j k l m n)
          as [[result|e0] w'] eqn:Ep
    end; cbn [fst]; auto.
    apply DocumentExtras.process_uploaded_file_Ok in Ep.
    exists (c :: filename), ct. repeat split; try assumption; try discriminate.
    apply Ep.
Qed.

(** X27: a successful answer of [query_documents] echoes the query; its
    sources are the matches of [retrieve_documents] when [include_sources]
    is true and nothing otherwise; when nothing was retrieved the answer is
    the fixed apology and the model was not called; otherwise the model
    was called once and the answer is its reply, stripped. *)
Theorem query_documents_response (aw aw' : app_world collection rng)
    (start_time end_time : float) (request : QueryRequest)
    (response : RAGResponse float) :
  query_documents fone fsub fle embeddings_create collection_query repr_list
    chat_completions_create settings aw start_time end_time request
  = (Respond response, aw') ->
  exists docs,
    RetrievalService.retrieve_documents fone fsub fle embeddings_create collection_query
      settings (services aw) (query request) (max_results request)
    = (Ok docs, services aw')
    /\ response_query response = query request
    /\ sources response
       = match include_sources request with Some true => docs | _ => [] end
    /\ response_time response = fsub end_time start_time
    /\ (docs = [] -> answer response = no_answer /\ chat_calls aw' = chat_calls aw)
    /\ (docs <> [] ->
          strip (answer response) = answer response
          /\ exists messages, chat_calls aw' = chat_calls aw ++ [messages]).
Proof.
  unfold query_documents.
  destruct (RetrievalService.retrieve_documents fone fsub fle embeddings_create
              collection_query settings (services aw) (query request)
              (max_results request)) as [[docs|e] w'] eqn:Er; [|discriminate].
  destruct docs as [|doc docs].
  - intros [= <- <-]. exists []. cbn. repeat split; congruence.
  - unfold GenerationService.generate_response.
    destruct (chat_completions_create _) as [[|[reply|] replies]|e];
      try discriminate.
    intros [= <- <-]. exists (doc :: docs). cbn.
    repeat split; try congruence; try discriminate.
    + apply strip_strip.
    + eauto.
Qed.

(** X28: [query_documents] fails with status 500 only.  When the retrieval
    fails, the detail is its message and the model is not called; when the
    model fails, the detail is [Failed to generate response:] and its
    message. *)
Theorem query_documents_failures (aw : app_world collection rng)
    (start_time end_time : float) (request : QueryRequest) :
  let outcome :=
    query_documents fone fsub fle embeddings_create collection_query repr_list
      chat_completions_create settings aw start_time end_time request in
  match fst outcome with
  | HTTPException status_code _ => status_code = 500%Z
  | Respond _ => True
  end
  /\ (forall e w',
        RetrievalService.retrieve_documents fone fsub fle embeddings_create
          collection_query settings (services aw) (query request) (max_results request)
        = (Raise e, w') ->
        outcome = (HTTPException 500 e, AppWorld w' (chat_calls aw)))
  /\ (forall docs w' e calls,
        RetrievalService.retrieve_documents fone fsub fle embeddings_create
          collection_query settings (services aw) (query request) (max_results request)
        = (Ok docs, w') ->
        docs <> [] ->
        GenerationService.generate_response repr_list chat_completions_create
          (chat_calls aw) (query request) docs = (Raise e, calls) ->
        outcome = (HTTPException 500 e, AppWorld w' calls)
        /\ exists reason, e = GenerationService.generation_failed reason).
Proof.
  cbv zeta. unfold query_documents.
  destruct (RetrievalService.retrieve_documents fone fsub fle embeddings_create
              collection_query settings (services aw) (query request)
              (max_results request)) as [[docs|e] w'] eqn:Er.
  - split; [|split].
    + destruct docs as [|doc docs]; [exact I|].
      destruct (GenerationService.generate_response repr_list chat_completions_create
                  (chat_calls aw) (query request) (doc :: docs)) as [[a|e] calls];
        cbn; auto.
    + intros e w'' [=].
    + intros docs' w'' e calls [= <- <-] Hne Hg.
      destruct docs as [|doc docs]; [congruence|]. rewrite Hg. split; [reflexivity|].
      unfold GenerationService.generate_response in Hg.
      destruct (chat_completions_create _) as [[|[reply|] replies]|e0];
        inversion Hg; eexists; reflexivity.
  - split; [reflexivity|]. split.
    + now intros e0 w'' [= <- <-].
    + intros docs w'' e0 calls [=].
Qed.

(** X29: a failure of the count of the collection does not show as an
    error: [health_check] then reports the status [degraded] with the
    database [unhealthy] and 0 documents, and [get_document_stats] answers
    normally with 0 documents and the collection name [unknown]; when the
    count succeeds, both report it, [health_check] as [healthy]. *)
Theorem count_failure_is_masked (w : RetrievalService.world collection rng) (now : str) :
  (forall n,
      collection_count (RetrievalService.the_collection w) = Ok n ->
      health_check collection_count collection_name app_version w now
      = MkHealthResponse (py "healthy") now app_version (py "healthy") (StatInt n)
      /\ get_document_stats collection_count collection_name w
         = Respond (MkDocumentStats (StatInt n) (StatStr collection_name)
                      DocumentService.get_supported_formats))
  /\ (forall e,
        collection_count (RetrievalService.the_collection w) = Raise e ->
        health_check collection_count collection_name app_version w now
        = MkHealthResponse (py "degraded") now app_version (py "unhealthy") (StatInt 0)
        /\ get_document_stats collection_count collection_name w
           = Respond (MkDocumentStats (StatInt 0) (StatStr (py "unknown"))
                        DocumentService.get_supported_formats)).
Proof.
  unfold health_check, get_document_stats, get_collection_stats. split.
  - intros n ->. split; reflexivity.
  - intros e ->. split; reflexivity.
Qed.

End WithCollaborators.

Lemma upload_document_gate_witness :
  upload_document no_unicode_alnum no_unicode_lower Demo.embeddings_create
    Demo.collection_add Demo.uuid4 DemoApp.pdf_pages DemoApp.docx_paragraphs
    DemoApp.decode_utf8 DemoApp.document_settings Demo.start (py "2024-01-01T00:00:00")
    (MkUploadFile (Some (py "report.pdf")) (Some (py "application/octet-stream"))
       (DemoApp.ascii_bytes "%PDF-1.4"))
  = (HTTPException 400 unsupported_detail, Demo.start).
Proof.
  apply (proj1 (proj2 (@upload_document_gate no_unicode_alnum no_unicode_lower
           Demo.float Demo.embeddings_create Demo.collection Demo.collection_add
           Demo.rng Demo.uuid4 DemoApp.pdf_pages DemoApp.docx_paragraphs
           DemoApp.decode_utf8 DemoApp.document_settings Demo.start
           (py "2024-01-01T00:00:00")
           (MkUploadFile (Some (py "report.pdf")) (Some (py "application/octet-stream"))
              (DemoApp.ascii_bytes "%PDF-1.4")))) (py "report.pdf") eq_refl).
  - discriminate.
  - intros ct [= <-] H. simpl in H.
    repeat (destruct H as [H|H]; [discriminate H|]). exact H.
Defined.

Lemma query_documents_response_witness :
  exists response aw',
    query_documents Demo.fone Demo.fsub Demo.fle Demo.embeddings_create
      Demo.collection_query DemoApp.repr_list DemoApp.chat_completions_create
      (Demo.settings (95 # 100)) (AppWorld Demo.start []) (0 # 1) (1 # 2)
      (MkQueryRequest (py "What is far?") (Some 3%Z) (Some true))
    = (Respond response, aw')
    /\ sources response = [] /\ answer response = no_answer /\ chat_calls aw' = [].
Proof.
  eexists. eexists. split; [reflexivity|].
  pose proof (@query_documents_response Demo.float Demo.fone Demo.fsub Demo.fle
                Demo.embeddings_create Demo.collection Demo.collection_query Demo.rng
                DemoApp.repr_list DemoApp.chat_completions_create
                (Demo.settings (95 # 100)) (AppWorld Demo.start []) _ (0 # 1) (1 # 2)
                (MkQueryRequest (py "What is far?") (Some 3%Z) (Some true)) _ eq_refl)
    as H.
  destruct H as (docs & Hr & _ & Hs & _ & Hnone & _).
  injection Hr as <-. split; [exact Hs|]. exact (Hnone eq_refl).
Defined.

Lemma query_documents_failures_witness :
  query_documents Demo.fone Demo.fsub Demo.fle Demo.failing_embeddings_create
    Demo.collection_query DemoApp.repr_list DemoApp.chat_completions_create
    (Demo.settings (7 # 10)) (AppWorld Demo.start []) (0 # 1) (1 # 2)
    (MkQueryRequest (py "What is far?") None None)
  = (HTTPException 500
       "Failed to retrieve documents: Failed to generate embeddings: rate limit",
     AppWorld
       (RetrievalService.record_event Demo.start
          (RetrievalService.EmbeddingsCreate [py "What is far?"])) []).
Proof.
  apply (proj1 (proj2 (@query_documents_failures Demo.float Demo.fone Demo.fsub Demo.fle
           Demo.failing_embeddings_create Demo.collection Demo.collection_query Demo.rng
           DemoApp.repr_list DemoApp.chat_completions_create (Demo.settings (7 # 10))
           (AppWorld Demo.start []) (0 # 1) (1 # 2)
           (MkQueryRequest (py "What is far?") None None)))).
  reflexivity.
Defined.

Lemma count_failure_is_masked_witness :
  DemoApp.failing_collection_count Demo.two_chunks = Raise "database is locked"
  /\ status (health_check DemoApp.failing_collection_count (py "documents") (py "1.0.0")
               Demo.start (py "2024-01-01T00:00:00")) = py "degraded".
Proof.
  split; [reflexivity|].
  pose proof (proj1 (proj2 (@count_failure_is_masked Demo.collection
                DemoApp.failing_collection_count Demo.rng (py "documents") (py "1.0.0")
                Demo.start (py "2024-01-01T00:00:00")) "database is locked"%string
                eq_refl)) as H.
  now rewrite H.
Defined.

End MainExtras.
